(** * GameBot: the tool-calling chat loop of [app.py]

    A shallow embedding of the orchestration logic of [app.py]: the two
    tools, the two graph nodes ([chatbot_with_tools], the prebuilt tool
    node), the router [maybe_route_to_tools], the compiled graph with its
    recursion limit, and the Streamlit script that drives one turn.

    Python exceptions are modelled by the [Res] type, the remote model by
    an explicit world that every external call threads through, and the
    calls made to it by a trace kept next to the world. *)

From Stdlib Require Import String Ascii List Bool Arith Lia.
Import ListNotations.
Open Scope string_scope.

(** ** Exceptions and fallible results *)

Inductive exn_class : Type :=
| ValueError
| KeyError
| IndexError
| TypeError
| AttributeError
| GraphRecursionError
| ExternalError.

(** An exception object: its class and the text [str(e)] gives for it. *)
Record exn : Type := Exn { class_of : exn_class; str : string }.

Inductive Res (A : Type) : Type :=
| Ok (a : A)
| Raise (e : exn).

Arguments Ok {A} a.
Arguments Raise {A} e.

Definition is_ok {A} (r : Res A) : bool :=
  match r with Ok _ => true | Raise _ => false end.

(** ** Strings *)

Definition nl : string := String "010"%char EmptyString.

(** [s.split("\n")] *)
Fixpoint lines (s : string) : list string :=
  match s with
  | EmptyString => [EmptyString]
  | String c rest =>
      if Ascii.eqb c "010"%char then EmptyString :: lines rest
      else match lines rest with
           | [] => [String c EmptyString]
           | l :: ls => String c l :: ls
           end
  end.

Fixpoint lstrip (s : string) : string :=
  match s with
  | String c rest => if Ascii.eqb c " "%char then lstrip rest else s
  | EmptyString => EmptyString
  end.

Fixpoint string_rev (s : string) : string :=
  match s with
  | EmptyString => EmptyString
  | String c rest => string_rev rest ++ String c EmptyString
  end.

Definition rstrip (s : string) : string := string_rev (lstrip (string_rev s)).

Definition strip (s : string) : string := lstrip (rstrip s).

(** ** Messages *)

Record ToolCall : Type := mkToolCall
  { name : string;
    args : list (string * string);
    id : string }.

(** The message classes of [langchain_core.messages] the program meets.
    [SystemMessage] stands for the [("system", text)] pair that
    [GAMEBOT_SYSINT] is.  Only [AIMessage] has a [tool_calls] attribute. *)
Inductive Message : Type :=
| SystemMessage (content : string)
| HumanMessage (content : string)
| AIMessage (content : string) (tool_calls : list ToolCall)
| ToolMessage (content : string) (tool_call_id : string).

Definition content (msg : Message) : string :=
  match msg with
  | SystemMessage c | HumanMessage c | AIMessage c _ | ToolMessage c _ => c
  end.

(** [getattr(msg, "tool_calls")], [None] when the attribute is missing. *)
Definition tool_calls (msg : Message) : option (list ToolCall) :=
  match msg with
  | AIMessage _ calls => Some calls
  | _ => None
  end.

Definition hasattr_tool_calls (msg : Message) : bool :=
  match tool_calls msg with Some _ => true | None => false end.

(** [msgs[-1]] *)
Fixpoint last_message (msgs : list Message) : option Message :=
  match msgs with
  | [] => None
  | [msg] => Some msg
  | _ :: rest => last_message rest
  end.

(** ** Conversation state *)

(** [GameState] is a typed dictionary; a key may be absent at run time,
    which is why [chatbot_with_tools] merges defaults in. *)
Record GameState : Type := mkGameState
  { messages : option (list Message);
    order : option (list string);
    finished : option bool }.

Definition key_or {A} (a b : option A) : option A :=
  match b with Some _ => b | None => a end.

(** Python's [a | b] on dictionaries: keys of [b] win. *)
Definition dict_or (a b : GameState) : GameState :=
  {| messages := key_or (messages a) (messages b);
     order := key_or (order a) (order b);
     finished := key_or (finished a) (finished b) |}.

Infix "|||" := dict_or (at level 50, left associativity).

(** [state.get("messages", [])] *)
Definition get_messages (state : GameState) : list Message :=
  match messages state with Some l => l | None => [] end.

(** ** Constants *)

Definition GAMEBOT_SYSINT : Message :=
  SystemMessage
    ("You are GameBot, an interactive board game expert system. A human will talk to you about "
     ++ "various board games and you will answer any questions about game rules, strategies, and history "
     ++ "(and only about board games - no off-topic discussion, but you can chat about the games and their history)."
     ++ nl ++ nl
     ++ "You have access to the function `get_list_game()` to list available games." ++ nl
     ++ "If a user asks about a game not in the list, do not tell them it's unavailable. "
     ++ "Instead, print the game_name and call the `search_game_online(game_name)` tool to search online and help them."
     ++ nl
     ++ "If the game is in your list (for example: 'Chess'), feel free to answer detailed questions about its rules, pieces, or strategy using your own knowledge."
     ++ nl ++ nl
     ++ "Be proactive and helpful. Respond in the user's language." ++ nl
     ++ "Keep your responses concise and friendly." ++ nl ++ nl
     ++ "If any of the tools are unavailable, you can break the fourth wall and tell the user "
     ++ "that they have not implemented them yet and should keep reading to do so.").

Definition WELCOME_MSG : string :=
  "Welcome to the GameBot expert system! How may I assist you with board games today?".

(** ** Tools *)

Definition get_list_game (_ : unit) : string := "
    Game:
    Monopoly
    Scrabble
    Chess
    Cluedo
    Uno
    Mahjong
    Mikado
  ".

(** What [google.genai] hands back from [generate_content]: every level
    of [response.candidates[0].content.parts[0].text] may be missing. *)
Module types.
Record Part : Type := mkPart { text : option string }.
Record Content : Type := mkContent { parts : option (list Part) }.
Record Candidate : Type := mkCandidate { content : option Content }.
Record GenerateContentResponse : Type :=
  mkResponse { candidates : option (list Candidate) }.
End types.

(** ** The outside world *)

(** The calls that leave the process. *)
Inductive Call : Type :=
| ChatCompletion (msgs : list Message)
| SearchCompletion (prompt : string).

(** Everything the program takes from its libraries and from the network,
    over a world [W] that the remote model may change at each call.
    - [llm_invoke]: [llm_with_tools.invoke], the content and tool calls of
      the [AIMessage] it returns, or the exception it raises;
    - [generate_content]: [client.models.generate_content] with search
      grounding;
    - [create_llm]: the call [initialize_graph()] of a run of the script,
      which constructs the chat model or, under Streamlit's resource
      cache, hands back the graph an earlier run has built; the world
      tells which;
    - [repr_state]: Python's [repr] of a state dictionary;
    - [handle_tool_error]: what the prebuilt tool node makes of an exception
      raised by a tool, a text for the tool message or an exception to
      raise;
    - [invalid_tool], [invalid_args], [none_output]: the texts the tool node
      uses for an unknown tool name, for a call lacking an argument, and
      for a tool that returned [None];
    - [recursion_error]: the text of langgraph's recursion-limit error. *)
Record Runtime (W : Type) : Type := mkRuntime
  { llm_invoke : W -> list Message -> Res (string * list ToolCall) * W;
    generate_content : W -> string -> Res types.GenerateContentResponse * W;
    create_llm : W -> Res unit * W;
    repr_state : GameState -> string;
    handle_tool_error : exn -> Res string;
    invalid_tool : string -> string;
    invalid_args : ToolCall -> string;
    none_output : string;
    recursion_error : nat -> string }.

Arguments llm_invoke {W} _ _ _.
Arguments generate_content {W} _ _ _.
Arguments create_llm {W} _ _.
Arguments repr_state {W} _ _.
Arguments handle_tool_error {W} _ _.
Arguments invalid_tool {W} _ _.
Arguments invalid_args {W} _ _.
Arguments none_output {W} _.
Arguments recursion_error {W} _ _.

(** The world together with the trace of the calls made so far. *)
Record Env (W : Type) : Type := mkEnv
  { world : W;
    calls : list Call }.

Arguments mkEnv {W} _ _.
Arguments world {W} _.
Arguments calls {W} _.

(** ** The monad of the program: state and exceptions *)

Definition M (W A : Type) : Type := Env W -> Res A * Env W.

Definition ret {W A} (a : A) : M W A := fun env => (Ok a, env).

Definition raise {W A} (e : exn) : M W A := fun env => (Raise e, env).

Definition bind {W A B} (c : M W A) (k : A -> M W B) : M W B :=
  fun env =>
    match c env with
    | (Ok a, env') => k a env'
    | (Raise e, env') => (Raise e, env')
    end.

(** [try: c except Exception as e: handler e] *)
Definition try_except {W A} (c : M W A) (handler : exn -> M W A) : M W A :=
  fun env =>
    match c env with
    | (Ok a, env') => (Ok a, env')
    | (Raise e, env') => handler e env'
    end.

Definition lift {W A} (r : Res A) : M W A := fun env => (r, env).

Declare Scope monad_scope.
Delimit Scope monad_scope with monad.
Notation "x <- c1 ;; c2" := (bind c1 (fun x => c2))
  (at level 100, c1 at next level, right associativity) : monad_scope.
Open Scope monad_scope.

Fixpoint mapM {W A B} (f : A -> M W B) (l : list A) : M W (list B) :=
  match l with
  | [] => ret []
  | a :: rest => b <- f a ;; bs <- mapM f rest ;; ret (b :: bs)
  end.

(** [d[key]] on an association list of arguments. *)
Fixpoint lookup_arg (key : string) (kvs : list (string * string)) : option string :=
  match kvs with
  | [] => None
  | (k, v) :: rest => if String.eqb k key then Some v else lookup_arg key rest
  end.

(** ** The graph *)

Inductive Node : Type := chatbot | tools.

(** What [maybe_route_to_tools] returns: a node name or [END]. *)
Inductive Route : Type := Next (n : Node) | END.

Section Graph.
Context {W : Type} (rt : Runtime W).

(** One call of [llm_with_tools.invoke], recorded in the trace. *)
Definition llm_with_tools_invoke (msgs : list Message) : M W Message :=
  fun env =>
    let (r, w) := llm_invoke rt (world env) msgs in
    let env' := mkEnv w (calls env ++ [ChatCompletion msgs]) in
    match r with
    | Ok (text, requests) => (Ok (AIMessage text requests), env')
    | Raise e => (Raise e, env')
    end.

(** One call of [client.models.generate_content], recorded in the trace. *)
Definition client_generate_content (prompt : string)
  : M W types.GenerateContentResponse :=
  fun env =>
    let (r, w) := generate_content rt (world env) prompt in
    (r, mkEnv w (calls env ++ [SearchCompletion prompt])).

(** [seq[0]] on a value that may be [None]. *)
Definition first {A} (seq : option (list A)) : Res A :=
  match seq with
  | None => Raise (Exn TypeError "'NoneType' object is not subscriptable")
  | Some [] => Raise (Exn IndexError "list index out of range")
  | Some (a :: _) => Ok a
  end.

Definition search_game_online (game_name : string) : M W (option string) :=
  let prompt :=
    "Can you give me a short description of the board game '" ++ game_name ++ "'?" in
  response <- client_generate_content prompt ;;
  candidate <- lift (first (types.candidates response)) ;;
  match types.content candidate with
  | None => raise (Exn AttributeError "'NoneType' object has no attribute 'parts'")
  | Some c =>
      part <- lift (first (types.parts c)) ;;
      ret (types.text part)
  end.

(** [not msgs] holds exactly when [msgs] has no last message, so the test
    and [msgs[-1]] are one match. *)
Definition maybe_route_to_tools (state : GameState) : Res Route :=
  let msgs := get_messages state in
  match last_message msgs with
  | None =>
      Raise (Exn ValueError
               ("No messages found when parsing state: " ++ repr_state rt state))
  | Some msg =>
      match tool_calls msg with
      | Some requests => if (0 <? List.length requests)%nat then Ok (Next tools) else Ok END
      | None => Ok END
      end
  end.

Definition defaults : GameState :=
  {| messages := None; order := Some []; finished := Some false |}.

(** The dictionary [{"messages": new}]. *)
Definition only_messages (new : list Message) : GameState :=
  {| messages := Some new; order := None; finished := None |}.

Definition chatbot_with_tools (state : GameState) : M W GameState :=
  match messages state with
  | None => raise (Exn KeyError "'messages'")
  | Some log =>
      new_output <-
        match log with
        | _ :: _ => llm_with_tools_invoke (GAMEBOT_SYSINT :: log)
        | [] => ret (AIMessage WELCOME_MSG [])
        end ;;
      ret (defaults ||| state ||| only_messages [new_output])
  end.

(** *** The prebuilt tool node over [[get_list_game, search_game_online]] *)

(** The registered tool a call names, run on the call's arguments. *)
Definition run_tool (call : ToolCall) : M W string :=
  if String.eqb (name call) "get_list_game" then ret (get_list_game tt)
  else if String.eqb (name call) "search_game_online" then
    match lookup_arg "game_name" (args call) with
    | Some game_name =>
        output <- search_game_online game_name ;;
        ret (match output with Some s => s | None => none_output rt end)
    | None => raise (Exn ExternalError (invalid_args rt call))
    end
  else ret (invalid_tool rt (name call)).

(** One tool call answered by one tool message carrying the call's id. *)
Definition run_one (call : ToolCall) : M W Message :=
  output <- try_except (run_tool call) (fun e => lift (handle_tool_error rt e)) ;;
  ret (ToolMessage output (id call)).

(** The tool node answers the calls of the last message, its results in
    the order of the calls.  The node runs the calls of one message side by
    side; here they run one after the other, which is the same for a
    single call and for calls that touch nothing outside. *)
Definition tool_node (state : GameState) : M W GameState :=
  let msgs := get_messages state in
  match last_message msgs with
  | Some (AIMessage _ requests) =>
      outputs <- mapM run_one requests ;;
      ret (only_messages outputs)
  | Some _ => raise (Exn ValueError "Last message is not an AIMessage")
  | None => raise (Exn ValueError "No message found in input")
  end.

(** *** The compiled graph *)

(** The reducer of the [messages] key.  Messages get fresh ids, so the
    reducer never replaces a message of the log: it appends. *)
Definition add_messages (left right : list Message) : list Message :=
  left ++ right.

(** A node's returned dictionary written to the state: [messages] goes
    through its reducer, the other keys are overwritten when returned. *)
Definition apply_writes (state update : GameState) : GameState :=
  {| messages :=
       match messages update with
       | Some new =>
           Some (add_messages (get_messages state) new)
       | None => messages state
       end;
     order := key_or (order state) (order update);
     finished := key_or (finished state) (finished update) |}.

Definition empty_channels : GameState :=
  {| messages := Some []; order := None; finished := None |}.

(** The graph built in [initialize_graph]: [START -> chatbot], the
    conditional edge [maybe_route_to_tools] out of [chatbot], and
    [tools -> chatbot].  Each node run is one step of the graph, and the
    recursion limit bounds the steps of one invocation: the graph
    returns when it reaches [END] before its last allowed step, and
    raises its recursion error once the last allowed run has been made,
    also when that run is the one that reaches [END].  The router is
    evaluated on the state as the node's return has updated it. *)
Fixpoint run (limit steps : nat) (node : Node) (state : GameState)
  : M W GameState :=
  match steps with
  | O => raise (Exn GraphRecursionError (recursion_error rt limit))
  | S steps' =>
      match node with
      | chatbot =>
          update <- chatbot_with_tools state ;;
          let state' := apply_writes state update in
          route <- lift (maybe_route_to_tools state') ;;
          match route with
          | Next n => run limit steps' n state'
          | END =>
              match steps' with
              | O => raise (Exn GraphRecursionError (recursion_error rt limit))
              | S _ => ret state'
              end
          end
      | tools =>
          update <- tool_node state ;;
          run limit steps' chatbot (apply_writes state update)
      end
  end.

(** [graph.invoke(input, {"recursion_limit": recursion_limit})]; a limit
    below one is refused before any node runs. *)
Definition graph_invoke (input : GameState) (recursion_limit : nat)
  : M W GameState :=
  match recursion_limit with
  | O => raise (Exn ValueError "recursion_limit must be at least 1")
  | S _ => run recursion_limit recursion_limit chatbot (apply_writes empty_channels input)
  end.
End Graph.

(** ** The Streamlit script *)

Inductive Widget : Type :=
| markdown (body : string)
| error (body : string)
| info (body : string).

(** What a run of the script draws, in order; static decoration (page
    configuration, style sheet, title, sidebar text, footer) is left out. *)
Inductive UI : Type :=
| top (w : Widget)
| chat_message (role : string) (w : Widget).

(** [st.session_state]: the displayed history and the graph state. *)
Record SessionState : Type := mkSession
  { session_messages : list (string * string);
    graph_state : GameState }.

(** One processed chat input: the text shown as the assistant's reply, the
    session state left behind, and what was drawn. *)
Record Turn : Type := mkTurn
  { reply : string;
    after : SessionState;
    drawn : list UI }.

Inductive Outcome : Type := completed | stopped | rerun.

Record Script : Type := mkScript
  { outcome : Outcome;
    session_state : option SessionState;
    page : list UI }.

(** Truth value of a value that is [None] or a string. *)
Definition truthy (s : option string) : bool :=
  match s with
  | Some (String _ _) => true
  | _ => false
  end.

Definition fresh_session : SessionState :=
  {| session_messages := [];
     graph_state := {| messages := Some []; order := Some []; finished := Some false |} |}.

Section Script.
Context {W : Type} (rt : Runtime W).

(** The body of the [try] block: the graph state it leaves in the
    session, and the response it computed or the exception it raised. *)
Definition try_body (state : GameState)
  : Env W -> (GameState * Res string) * Env W :=
  fun env =>
    match graph_invoke rt state 100 env with
    | (Raise e, env') => ((state, Raise e), env')
    | (Ok result, env') =>
        ((result,
          match messages result with
          | None => Raise (Exn KeyError "'messages'")
          | Some msgs =>
              match last_message msgs with
              | None => Raise (Exn IndexError "list index out of range")
              | Some last_msg => Ok (content last_msg)
              end
          end), env')
    end.

(** The chat-input block: what the script does with a prompt. *)
Definition submit (prompt : string) (ss : SessionState) : M W Turn :=
  let history := (session_messages ss ++ [("user", prompt)])%list in
  let shown := [chat_message "user" (markdown prompt)] in
  match messages (graph_state ss) with
  | None => raise (Exn KeyError "'messages'")
  | Some log =>
      let state :=
        {| messages := Some (log ++ [HumanMessage prompt])%list;
           order := order (graph_state ss);
           finished := finished (graph_state ss) |} in
      fun env =>
        match try_body state env with
        | ((state', Ok response), env') =>
            (Ok {| reply := response;
                   after := {| session_messages := history ++ [("assistant", response)];
                               graph_state := state' |};
                   drawn := shown ++ [chat_message "assistant" (markdown response)] |},
             env')
        | ((state', Raise e), env') =>
            let error_msg := "Sorry, I encountered an error: " ++ str e in
            (Ok {| reply := error_msg;
                   after := {| session_messages := history ++ [("assistant", error_msg)];
                               graph_state := state' |};
                   drawn := shown ++ [chat_message "assistant" (error error_msg)] |},
             env')
        end
  end.

(** One run of the script: with the environment's [GOOGLE_API_KEY], the
    session state kept by Streamlit, whether the clear button was
    pressed, and the chat input if any.  The construction of the search
    client after the key check makes no call and is taken to succeed. *)
Definition app (GOOGLE_API_KEY : option string) (session : option SessionState)
           (clear_chat : bool) (chat_input : option string) : M W Script :=
  if negb (truthy GOOGLE_API_KEY) then
    ret {| outcome := stopped;
           session_state := session;
           page := [top (error "⚠️ Please set your GOOGLE_API_KEY in the .env file");
                    top (info "Create a `.env` file with: `GOOGLE_API_KEY=your_api_key_here`")] |}
  else
    let ss := match session with Some ss => ss | None => fresh_session end in
    fun env =>
      match create_llm rt (world env) with
      | (Raise e, w) =>
          (Ok {| outcome := stopped;
                 session_state := Some ss;
                 page := [top (error ("Error initializing the chatbot: " ++ str e))] |},
           mkEnv w (calls env))
      | (Ok _, w) =>
          let env := mkEnv w (calls env) in
          if clear_chat then
            (Ok {| outcome := rerun;
                   session_state := Some fresh_session;
                   page := [] |}, env)
          else
            let welcome :=
              match session_messages ss with
              | [] => [chat_message "assistant" (markdown WELCOME_MSG)]
              | _ => []
              end in
            let history :=
              map (fun m => chat_message (fst m) (markdown (snd m))) (session_messages ss) in
            if truthy chat_input then
              let prompt := match chat_input with Some p => p | None => "" end in
              match submit prompt ss env with
              | (Ok turn, env') =>
                  (Ok {| outcome := completed;
                         session_state := Some (after turn);
                         page := welcome ++ history ++ drawn turn |}, env')
              | (Raise e, env') => (Raise e, env')
              end
            else
              (Ok {| outcome := completed;
                     session_state := Some ss;
                     page := welcome ++ history |}, env)
      end.

(** The inputs of a session handled one after the other, each on the
    session state the previous one left. *)
Fixpoint chat (prompts : list string) (ss : SessionState)
  : M W (list string * SessionState) :=
  match prompts with
  | [] => ret ([], ss)
  | prompt :: rest =>
      turn <- submit prompt ss ;;
      later <- chat rest (after turn) ;;
      ret (reply turn :: fst later, snd later)
  end.
End Script.

(** ** Vocabulary of the statements *)

(** Messages a turn produces: model replies and tool results. *)
Definition produced (msg : Message) : Prop :=
  match msg with
  | AIMessage _ _ | ToolMessage _ _ => True
  | SystemMessage _ | HumanMessage _ => False
  end.

Definition is_chat (c : Call) : bool :=
  match c with ChatCompletion _ => true | SearchCompletion _ => false end.

(** A trace without gateway calls. *)
Definition silent (new : list Call) : Prop := Forall (fun c => is_chat c = false) new.

(** The number of gateway round-trips in a trace. *)
Definition round_trips (trace : list Call) : nat :=
  List.length (filter is_chat trace).

(** A gateway call made on a log that extends [log] by produced messages,
    with the system instruction in front. *)
Definition sent_with_sysint (log : list Message) (c : Call) : Prop :=
  match c with
  | ChatCompletion msgs =>
      exists ext, msgs = GAMEBOT_SYSINT :: (log ++ ext)%list /\ Forall produced ext
  | SearchCompletion _ => True
  end.

(** The state [submit] hands to the graph: the session's graph state with
    the prompt appended to its log [log]. *)
Definition with_prompt (ss : SessionState) (log : list Message) (prompt : string)
  : GameState :=
  mkGameState (Some (log ++ [HumanMessage prompt])%list)
              (order (graph_state ss)) (finished (graph_state ss)).

(** A model that asks for at least one tool call at every call. *)
Definition always_requests_tool {W} (rt : Runtime W) : Prop :=
  forall w msgs,
    exists text requests w',
      llm_invoke rt w msgs = (Ok (text, requests), w') /\ requests <> [].

(** A tool call the tool node always answers with a tool message: the tool
    returns, or the node turns its error into a message. *)
Definition never_fails {W} (rt : Runtime W) (call : ToolCall) : Prop :=
  forall env, is_ok (fst (run_one rt call env)) = true.

(** A model whose every requested tool call is answered. *)
Definition requested_tools_answered {W} (rt : Runtime W) : Prop :=
  forall w msgs text requests w',
    llm_invoke rt w msgs = (Ok (text, requests), w') ->
    Forall (never_fails rt) requests.

(** A tool node that turns every tool error into a tool message. *)
Definition tool_errors_handled {W} (rt : Runtime W) : Prop :=
  forall e, is_ok (handle_tool_error rt e) = true.

(** The number of node runs a start at [node] adds to the step count. *)
Definition parity (node : Node) : nat :=
  match node with chatbot => 1 | tools => 0 end.

(** The prompt [search_game_online] sends. *)
Definition search_prompt (game_name : string) : string :=
  "Can you give me a short description of the board game '" ++ game_name ++ "'?".

(** ** Scripted runtimes *)

Definition unavailable : exn := Exn ExternalError "503 UNAVAILABLE".

(** A response whose only candidate has an empty list of parts. *)
Definition no_parts_response : types.GenerateContentResponse :=
  types.mkResponse (Some [types.mkCandidate (Some (types.mkContent (Some [])))]).

Definition list_games_call : ToolCall := mkToolCall "get_list_game" [] "call_0".

(** A model that asks for [get_list_game] at every call, a search that is
    down, and a tool node that re-raises tool errors. *)
Definition looping : Runtime unit :=
  {| llm_invoke := fun w _ => (Ok ("", [list_games_call]), w);
     generate_content := fun w _ => (Raise unavailable, w);
     create_llm := fun w => (Ok tt, w);
     repr_state := fun _ => "{...}";
     handle_tool_error := fun e => Raise e;
     invalid_tool := fun n => "Error: " ++ n ++ " is not a valid tool";
     invalid_args := fun _ => "Error: invalid arguments";
     none_output := "null";
     recursion_error := fun _ => "Recursion limit reached" |}.

(** A model that is down, and a search that answers without parts. *)
Definition offline : Runtime unit :=
  {| llm_invoke := fun w _ => (Raise unavailable, w);
     generate_content := fun w _ => (Ok no_parts_response, w);
     create_llm := fun w => (Ok tt, w);
     repr_state := fun _ => "{...}";
     handle_tool_error := fun e => Ok ("Error: " ++ str e);
     invalid_tool := fun n => "Error: " ++ n ++ " is not a valid tool";
     invalid_args := fun _ => "Error: invalid arguments";
     none_output := "null";
     recursion_error := fun _ => "Recursion limit reached" |}.

(** A model that answers every call with the same plain text. *)
Definition answering (text : string) : Runtime unit :=
  {| llm_invoke := fun w _ => (Ok (text, []), w);
     generate_content := fun w _ => (Ok no_parts_response, w);
     create_llm := fun w => (Ok tt, w);
     repr_state := fun _ => "{...}";
     handle_tool_error := fun e => Ok ("Error: " ++ str e);
     invalid_tool := fun n => "Error: " ++ n ++ " is not a valid tool";
     invalid_args := fun _ => "Error: invalid arguments";
     none_output := "null";
     recursion_error := fun _ => "Recursion limit reached" |}.

Definition env0 : Env unit := mkEnv tt [].

(** ** Vocabulary of the session statements *)

(** The displayed history a sequence of prompts and their replies adds. *)
Definition transcript (prompts replies : list string) : list (string * string) :=
  flat_map (fun turn => [("user", fst turn); ("assistant", snd turn)])
           (combine prompts replies).

Definition is_human (msg : Message) : bool :=
  match msg with HumanMessage _ => true | _ => false end.

(** The last message of a finished turn: a model reply without requests. *)
Definition final_reply (msg : Message) : Prop :=
  exists text, msg = AIMessage text [].

(** [order] and [finished] as a node's return leaves them. *)
Definition filled_order (state : GameState) : list string :=
  match order state with Some o => o | None => [] end.

Definition filled_finished (state : GameState) : bool :=
  match finished state with Some b => b | None => false end.

(** A model that plays a script: each call takes the next answer, and the
    model is down once the script is over. *)
Definition scripted : Runtime (list (string * list ToolCall)) :=
  {| llm_invoke := fun w _ =>
       match w with
       | [] => (Raise unavailable, [])
       | answer :: rest => (Ok answer, rest)
       end;
     generate_content := fun w _ => (Raise unavailable, w);
     create_llm := fun w => (Ok tt, w);
     repr_state := fun _ => "{...}";
     handle_tool_error := fun e => Ok ("Error: " ++ str e);
     invalid_tool := fun n => "Error: " ++ n ++ " is not a valid tool";
     invalid_args := fun _ => "Error: invalid arguments";
     none_output := "null";
     recursion_error := fun _ => "Recursion limit reached" |}.

(** A chat model that can always be constructed. *)
Definition llm_available {W} (rt : Runtime W) : Prop :=
  forall w, exists w', create_llm rt w = (Ok tt, w').

(** ** Tactics *)

(** Closes a goal that assumes an empty list of parts where the response
    has something else. *)
Ltac other_parts :=
  let H := fresh "H" in
  let Hc := fresh "Hc" in
  intros ? ? H Hc; injection H as <- _; cbn in Hc; discriminate Hc.

(** Closes a goal that assumes a first part where the response has none. *)
Ltac no_first_part :=
  let H := fresh "H" in
  let Hc := fresh "Hc" in
  let Hp := fresh "Hp" in
  intros (? & ? & ? & ? & ? & H & Hc & Hp & _);
  try discriminate H;
  injection H as <- _; cbn in Hc;
  try discriminate Hc;
  injection Hc as <-; cbn in Hp; discriminate Hp.

(** ** The catalog *)

(** C4: [get_list_game] takes no argument and reads no state, so any two
    calls return the same bytes; the text is newline-delimited, and its
    lines are, in this order, an empty line, the header [Game:], the seven
    games Monopoly, Scrabble, Chess, Cluedo, Uno, Mahjong, Mikado (each alone
    on its line, indented by four spaces), and a closing line of two
    spaces. *)
Theorem get_list_game_catalog :
  (forall call1 call2 : unit, get_list_game call1 = get_list_game call2)
  /\ lines (get_list_game tt)
     = [""; "    Game:"; "    Monopoly"; "    Scrabble"; "    Chess";
        "    Cluedo"; "    Uno"; "    Mahjong"; "    Mikado"; "  "]
  /\ filter (fun l => negb (String.eqb l ""))
            (map strip (lines (get_list_game tt)))
     = ["Game:"; "Monopoly"; "Scrabble"; "Chess"; "Cluedo"; "Uno";
        "Mahjong"; "Mikado"].
Proof.
  split; [|split].
  - intros [] []. reflexivity.
  - reflexivity.
  - reflexivity.
Qed.

(** ** The router *)

Lemma last_message_snoc (front : list Message) (msg : Message) :
  last_message (front ++ [msg]) = Some msg.
Proof.
  induction front as [|m front IH]; simpl.
  - reflexivity.
  - rewrite IH. destruct (front ++ [msg])%list eqn:E.
    + destruct front; discriminate.
    + reflexivity.
Qed.

Lemma get_messages_some (state : GameState) (log : list Message) :
  messages state = Some log -> get_messages state = log.
Proof. unfold get_messages. intros ->. reflexivity. Qed.

Lemma nonempty_snoc {A} (l : list A) :
  l <> [] -> exists front x, l = (front ++ [x])%list.
Proof.
  intros H. destruct (exists_last H) as [front [x ->]]. eauto.
Qed.

Section Router.
Context {W : Type} (rt : Runtime W).

Lemma route_on_last (state : GameState) (front : list Message) (msg : Message) :
  get_messages state = (front ++ [msg])%list ->
  maybe_route_to_tools rt state
  = match tool_calls msg with
    | Some (_ :: _) => Ok (Next tools)
    | _ => Ok END
    end.
Proof.
  intros Hlog. unfold maybe_route_to_tools.
  rewrite Hlog, last_message_snoc.
  destruct (tool_calls msg) as [[|c requests]|]; reflexivity.
Qed.

(** C1: on a state whose message log is not empty, [maybe_route_to_tools]
    returns the route to [tools] exactly when the last message carries a
    non-empty list of tool-call requests, and returns [END] when that
    list is empty; on a state whose log is empty (or absent, which the
    router reads as empty) it raises (a [ValueError], the program's
    invalid-state error) and returns no route. *)
Theorem maybe_route_to_tools_spec (state : GameState) (log : list Message) :
  get_messages state = log ->
  (log <> [] ->
   exists front msg,
     log = (front ++ [msg])%list
     /\ (maybe_route_to_tools rt state = Ok (Next tools)
         <-> exists requests, tool_calls msg = Some requests /\ requests <> [])
     /\ (tool_calls msg = Some [] -> maybe_route_to_tools rt state = Ok END))
  /\ (log = [] ->
      maybe_route_to_tools rt state
      = Raise (Exn ValueError
                 ("No messages found when parsing state: " ++ repr_state rt state))).
Proof.
  intros Hlog. split.
  - intros Hne. destruct (nonempty_snoc log Hne) as [front [msg ->]].
    exists front, msg. split; [reflexivity|].
    rewrite (route_on_last state front msg Hlog).
    split; [split|].
    + destruct (tool_calls msg) as [[|c requests]|]; try discriminate.
      intros _. exists (c :: requests). split; [reflexivity|discriminate].
    + intros [requests [-> Hne']].
      destruct requests; [contradiction|reflexivity].
    + intros ->. reflexivity.
  - intros ->. unfold maybe_route_to_tools. rewrite Hlog. reflexivity.
Qed.

(** C10: on a state whose message log is not empty and whose last
    message has no [tool_calls] attribute at all, the router returns
    [END]; it raises on no message of a non-empty log, whatever the kind
    of its last message. *)
Theorem route_without_tool_calls_attribute
  (state : GameState) (front : list Message) (msg : Message) :
  get_messages state = (front ++ [msg])%list ->
  (hasattr_tool_calls msg = false -> maybe_route_to_tools rt state = Ok END)
  /\ is_ok (maybe_route_to_tools rt state) = true.
Proof.
  intros Hlog. rewrite (route_on_last state front msg Hlog).
  unfold hasattr_tool_calls.
  destruct (tool_calls msg) as [[|c requests]|]; split;
    try reflexivity; discriminate.
Qed.
End Router.

Lemma maybe_route_to_tools_spec_witness :
  maybe_route_to_tools looping
    (mkGameState (Some [HumanMessage "hi"; AIMessage "" [list_games_call]]) None None)
  = Ok (Next tools).
Proof.
  pose (state := mkGameState
                   (Some [HumanMessage "hi"; AIMessage "" [list_games_call]]) None None).
  destruct (maybe_route_to_tools_spec looping state _ eq_refl) as [Hne _].
  destruct Hne as [front [msg [Hlog [Hiff _]]]]; [discriminate|].
  apply Hiff.
  destruct front as [|m0 [|m1 [|m2 front]]]; try discriminate.
  injection Hlog as _ <-.
  exists [list_games_call]. split; [reflexivity|discriminate].
Defined.

Lemma route_without_tool_calls_attribute_witness :
  maybe_route_to_tools looping (mkGameState (Some [HumanMessage "hi"]) None None) = Ok END.
Proof.
  apply (route_without_tool_calls_attribute looping
           (mkGameState (Some [HumanMessage "hi"]) None None) [] (HumanMessage "hi")).
  - reflexivity.
  - reflexivity.
Defined.

(** ** The chatbot node on an empty log *)

Section Welcome.
Context {W : Type} (rt : Runtime W).

(** C3: run on a state whose message log is empty, the chatbot node
    returns the fixed welcome message as the assistant's output and
    leaves the world and the trace of calls untouched, and the graph
    ends the turn there, returning after that one node run (under any
    recursion limit of two or more, the limit of 100 that the script sets
    among them); on a log that is not empty the node makes exactly one
    gateway call, so the empty log is the only case in which it produces
    an output without the model. *)
Theorem chatbot_welcome_bypasses_model
  (o : option (list string)) (f : option bool) (env : Env W) :
  let state := mkGameState (Some []) o f in
  let welcomed :=
    mkGameState (Some [AIMessage WELCOME_MSG []])
                (key_or (Some []) o) (key_or (Some false) f) in
  chatbot_with_tools rt state env = (Ok welcomed, env)
  /\ (forall n, graph_invoke rt state (S (S n)) env = (Ok welcomed, env))
  /\ graph_invoke rt state 100 env = (Ok welcomed, env)
  /\ (forall msg log,
        exists r w,
          chatbot_with_tools rt (mkGameState (Some (msg :: log)) o f) env
          = (r, mkEnv w (calls env ++ [ChatCompletion (GAMEBOT_SYSINT :: msg :: log)]))).
Proof.
  cbv zeta.
  assert (Hturn : forall n,
             graph_invoke rt (mkGameState (Some []) o f) (S (S n)) env
             = (Ok (mkGameState (Some [AIMessage WELCOME_MSG []])
                                (key_or (Some []) o) (key_or (Some false) f)), env)).
  { intros n. destruct o, f; reflexivity. }
  split; [|split; [|split]].
  - destruct o, f; reflexivity.
  - exact Hturn.
  - exact (Hturn 98).
  - intros msg log.
    unfold chatbot_with_tools, bind, llm_with_tools_invoke; cbn [messages].
    destruct (llm_invoke rt (world env) (GAMEBOT_SYSINT :: msg :: log))
      as [[[text requests]|e] w]; unfold ret; eauto.
Qed.
End Welcome.

(** ** The credential check *)

Section Credential.
Context {W : Type} (rt : Runtime W).

(** C9: when [GOOGLE_API_KEY] is absent from the environment (or empty),
    a run of the script shows the configuration error and its hint and
    stops there: it raises nothing, makes no call to the model, creates
    no chat model and leaves the session as it found it, whatever the
    pending chat input is. *)
Theorem missing_api_key_stops_at_startup
  (GOOGLE_API_KEY : option string) (session : option SessionState)
  (clear_chat : bool) (chat_input : option string) (env : Env W) :
  truthy GOOGLE_API_KEY = false ->
  app rt GOOGLE_API_KEY session clear_chat chat_input env
  = (Ok {| outcome := stopped;
           session_state := session;
           page := [top (error "⚠️ Please set your GOOGLE_API_KEY in the .env file");
                    top (info "Create a `.env` file with: `GOOGLE_API_KEY=your_api_key_here`")] |},
     env).
Proof.
  intros Hkey. unfold app. rewrite Hkey. reflexivity.
Qed.
End Credential.

Lemma missing_api_key_stops_at_startup_witness :
  app looping None None false (Some "What games do you have?") env0
  = (Ok {| outcome := stopped;
           session_state := None;
           page := [top (error "⚠️ Please set your GOOGLE_API_KEY in the .env file");
                    top (info "Create a `.env` file with: `GOOGLE_API_KEY=your_api_key_here`")] |},
     env0).
Proof.
  apply (missing_api_key_stops_at_startup looping None None false
           (Some "What games do you have?") env0).
  reflexivity.
Defined.

(** ** The search tool *)

Section Search.
Context {W : Type} (rt : Runtime W).

(** C2, as the code has it: [search_game_online] has no fallback of its
    own.  When the external call raises, the tool raises that same
    exception; when the response's first candidate has an empty list of
    parts, the tool raises; and the tool returns a value only when the
    response has a first candidate with a content and a first part, the
    value being that part's text. *)
Theorem search_game_online_propagates (game_name : string) (env : Env W) :
  let external := fst (generate_content rt (world env) (search_prompt game_name)) in
  let out := fst (search_game_online rt game_name env) in
  (forall e, external = Raise e -> out = Raise e)
  /\ (forall c cs, external = Ok (types.mkResponse (Some (c :: cs))) ->
                   types.content c = Some (types.mkContent (Some [])) ->
                   out = Raise (Exn IndexError "list index out of range"))
  /\ (forall t, out = Ok t <->
                exists c cs ct p ps,
                  external = Ok (types.mkResponse (Some (c :: cs)))
                  /\ types.content c = Some ct
                  /\ types.parts ct = Some (p :: ps)
                  /\ types.text p = t).
Proof.
  cbv zeta.
  unfold search_game_online, search_prompt, bind, client_generate_content, lift.
  destruct (generate_content rt (world env) _) as [[response|e0] w]; cbn [fst].
  - destruct response as [[[|c cs]|]]; cbn.
    + split; [discriminate|]. split; [discriminate|].
      intros t; split; [discriminate|]. no_first_part.
    + destruct c as [[[[[|p ps]|]]|]]; cbn.
      * split; [discriminate|]. split; [reflexivity|].
        intros t; split; [discriminate|]. no_first_part.
      * split; [discriminate|]. split; [other_parts|].
        intros t; split.
        -- intros [= <-].
           exists (types.mkCandidate (Some (types.mkContent (Some (p :: ps))))),
             cs, (types.mkContent (Some (p :: ps))), p, ps. auto.
        -- intros (c & cs' & ct & p' & ps' & H & Hc & Hp & <-).
           injection H as <- _. cbn in Hc. injection Hc as <-.
           cbn in Hp. injection Hp as <- _. reflexivity.
      * split; [discriminate|]. split; [other_parts|].
        intros t; split; [discriminate|]. no_first_part.
      * split; [discriminate|]. split; [other_parts|].
        intros t; split; [discriminate|]. no_first_part.
    + split; [discriminate|]. split; [discriminate|].
      intros t; split; [discriminate|]. no_first_part.
  - split; [intros e [= ->]; reflexivity|]. split; [discriminate|].
    intros t; split; [discriminate|]. no_first_part.
Qed.
End Search.

(** C2 fails as stated: with the search down the tool raises the search's
    own exception, and on a response without parts it raises an index
    error; in neither case does it return a text. *)
Lemma search_game_online_no_fallback :
  search_game_online looping "Azul" env0
  = (Raise unavailable, mkEnv tt [SearchCompletion (search_prompt "Azul")])
  /\ search_game_online offline "Azul" env0
     = (Raise (Exn IndexError "list index out of range"),
        mkEnv tt [SearchCompletion (search_prompt "Azul")]).
Proof.
  split; reflexivity.
Qed.

Lemma search_game_online_propagates_witness :
  fst (search_game_online looping "Azul" env0) = Raise unavailable.
Proof.
  apply (search_game_online_propagates looping "Azul" env0).
  reflexivity.
Defined.

(** ** Traces of the nodes *)

Lemma silent_app (new1 new2 : list Call) :
  silent new1 -> silent new2 -> silent (new1 ++ new2).
Proof. unfold silent. intros H1 H2. apply Forall_app. auto. Qed.

Lemma silent_round_trips (new : list Call) : silent new -> round_trips new = 0.
Proof.
  unfold silent, round_trips. induction 1 as [|c new Hc _ IH]; simpl.
  - reflexivity.
  - rewrite Hc. exact IH.
Qed.

Lemma round_trips_app (new1 new2 : list Call) :
  round_trips (new1 ++ new2) = round_trips new1 + round_trips new2.
Proof. unfold round_trips. rewrite filter_app, length_app. reflexivity. Qed.

Section Traces.
Context {W : Type} (rt : Runtime W).

Lemma search_game_online_trace game_name env r env' :
  search_game_online rt game_name env = (r, env') ->
  calls env' = (calls env ++ [SearchCompletion (search_prompt game_name)])%list.
Proof.
  unfold search_game_online, search_prompt, bind, client_generate_content, lift.
  destruct (generate_content rt (world env) _) as [[response|e0] w].
  - destruct response as [[[|c cs]|]]; cbn; try (intros [= _ <-]; reflexivity).
    destruct c as [[[[[|p ps]|]]|]]; cbn; intros [= _ <-]; reflexivity.
  - intros [= _ <-]. reflexivity.
Qed.

Lemma run_tool_trace call env r env' :
  run_tool rt call env = (r, env') ->
  exists new, calls env' = (calls env ++ new)%list /\ silent new.
Proof.
  unfold run_tool.
  destruct (String.eqb (name call) "get_list_game").
  { intros [= _ <-]. exists []. rewrite app_nil_r. split; [reflexivity|constructor]. }
  destruct (String.eqb (name call) "search_game_online").
  - destruct (lookup_arg "game_name" (args call)) as [game_name|].
    + unfold bind.
      destruct (search_game_online rt game_name env) as [[output|e0] env1] eqn:Hs;
        apply search_game_online_trace in Hs; intros [= _ <-];
        exists [SearchCompletion (search_prompt game_name)];
        (split; [exact Hs|repeat constructor]).
    + intros [= _ <-]. exists []. rewrite app_nil_r. split; [reflexivity|constructor].
  - intros [= _ <-]. exists []. rewrite app_nil_r. split; [reflexivity|constructor].
Qed.

Lemma run_one_trace call env r env' :
  run_one rt call env = (r, env') ->
  exists new,
    calls env' = (calls env ++ new)%list /\ silent new
    /\ match r with Ok msg => produced msg | Raise _ => True end
    /\ (tool_errors_handled rt -> is_ok r = true).
Proof.
  unfold run_one, bind, try_except, lift, ret.
  destruct (run_tool rt call env) as [[output|e0] env1] eqn:Ht;
    apply run_tool_trace in Ht; destruct Ht as [new [Hcalls Hsilent]].
  - intros [= <- <-]. exists new. cbn. auto.
  - destruct (handle_tool_error rt e0) as [output|e1] eqn:Hh; intros [= <- <-];
      exists new; cbn; repeat split; auto.
    intros Hall. specialize (Hall e0). rewrite Hh in Hall. discriminate Hall.
Qed.

Lemma mapM_run_one_trace requests : forall env r env',
  mapM (run_one rt) requests env = (r, env') ->
  exists new,
    calls env' = (calls env ++ new)%list /\ silent new
    /\ match r with Ok outputs => Forall produced outputs | Raise _ => True end
    /\ (tool_errors_handled rt -> is_ok r = true).
Proof.
  induction requests as [|call requests IH]; intros env r env'; cbn [mapM].
  - intros [= <- <-]. exists []. rewrite app_nil_r. cbn.
    repeat split; auto; constructor.
  - unfold bind at 1.
    destruct (run_one rt call env) as [[msg|e0] env1] eqn:H1;
      apply run_one_trace in H1; destruct H1 as [new1 [Hc1 [Hs1 [Hp1 Hok1]]]].
    + unfold bind at 1.
      destruct (mapM (run_one rt) requests env1) as [[outputs|e1] env2] eqn:H2;
        apply IH in H2; destruct H2 as [new2 [Hc2 [Hs2 [Hp2 Hok2]]]];
        intros [= <- <-]; exists (new1 ++ new2)%list;
        rewrite app_assoc, <- Hc1, <- Hc2; cbn;
        (split; [reflexivity|]); (split; [apply silent_app; assumption|]); auto.
    + intros [= <- <-]. exists new1. cbn. auto.
Qed.

Lemma tool_node_trace state env r env' :
  tool_node rt state env = (r, env') ->
  exists new,
    calls env' = (calls env ++ new)%list /\ silent new
    /\ match r with
       | Ok update => exists outputs, update = only_messages outputs /\ Forall produced outputs
       | Raise _ => True
       end
    /\ (tool_errors_handled rt ->
        (exists text requests,
            last_message (get_messages state) = Some (AIMessage text requests)) ->
        is_ok r = true).
Proof.
  unfold tool_node.
  destruct (last_message _) as [[c|c|c requests|c i]|] eqn:Hlast;
    try (intros [= <- <-]; exists []; rewrite app_nil_r; cbn;
         repeat split; auto; try constructor;
         intros _ (text & requests & Heq); discriminate).
  unfold bind.
  destruct (mapM (run_one rt) requests env) as [[outputs|e0] env1] eqn:Hm;
    apply mapM_run_one_trace in Hm; destruct Hm as [new [Hc [Hs [Hp Hok]]]];
    intros [= <- <-]; exists new; cbn; repeat split; eauto.
Qed.

Lemma chatbot_with_tools_trace state log env r env' :
  messages state = Some log ->
  chatbot_with_tools rt state env = (r, env') ->
  exists new,
    calls env' = (calls env ++ new)%list
    /\ (new = [] \/ (log <> [] /\ new = [ChatCompletion (GAMEBOT_SYSINT :: log)]))
    /\ match r with
       | Ok update =>
           exists new_output,
             update = defaults ||| state ||| only_messages [new_output]
             /\ produced new_output
       | Raise _ => True
       end.
Proof.
  intros Hlog. unfold chatbot_with_tools. rewrite Hlog.
  destruct log as [|msg log].
  - intros [= <- <-]. exists []. rewrite app_nil_r. cbn.
    split; [reflexivity|]. split; [auto|]. eexists. split; [reflexivity|exact I].
  - unfold bind, llm_with_tools_invoke, ret.
    destruct (llm_invoke rt (world env) (GAMEBOT_SYSINT :: msg :: log))
      as [[[text requests]|e0] w]; intros [= <- <-];
      exists [ChatCompletion (GAMEBOT_SYSINT :: msg :: log)]; cbn;
      (split; [reflexivity|]);
      (split; [right; split; [discriminate|reflexivity]|]); auto.
    eexists. split; [reflexivity|exact I].
Qed.
End Traces.

(** ** The log along a run of the graph *)

Lemma silent_sent (log : list Message) (new : list Call) :
  silent new -> Forall (sent_with_sysint log) new.
Proof.
  unfold silent. apply Forall_impl. intros [msgs|prompt]; [discriminate|].
  intros _. exact I.
Qed.

Lemma sent_weaken (log ext : list Message) (new : list Call) :
  Forall produced ext ->
  Forall (sent_with_sysint (log ++ ext)) new -> Forall (sent_with_sysint log) new.
Proof.
  intros Hext. apply Forall_impl. intros [msgs|prompt]; [|auto].
  intros [ext' [-> Hext']]. exists (ext ++ ext')%list.
  rewrite app_assoc. split; [reflexivity|]. apply Forall_app. auto.
Qed.

Section Log.
Context {W : Type} (rt : Runtime W).

Lemma messages_after_chatbot state log new_output :
  messages state = Some log ->
  messages (apply_writes state (defaults ||| state ||| only_messages [new_output]))
  = Some (log ++ [new_output])%list.
Proof. intros Hlog. cbn. unfold get_messages. rewrite Hlog. reflexivity. Qed.

Lemma messages_after_tools state log outputs :
  messages state = Some log ->
  messages (apply_writes state (only_messages outputs)) = Some (log ++ outputs)%list.
Proof. intros Hlog. cbn. unfold get_messages. rewrite Hlog. reflexivity. Qed.

(** Along a run, every gateway call carries the system instruction in
    front of the log as it stands, and the log only grows, by produced
    messages. *)
Lemma run_log limit steps : forall node state log env r env',
  messages state = Some log ->
  run rt limit steps node state env = (r, env') ->
  exists new,
    calls env' = (calls env ++ new)%list
    /\ Forall (sent_with_sysint log) new
    /\ match r with
       | Ok result =>
           exists appended,
             messages result = Some (log ++ appended)%list
             /\ Forall produced appended /\ appended <> []
       | Raise _ => True
       end.
Proof.
  induction steps as [|steps IH]; intros node state log env r env' Hlog; cbn [run].
  - intros [= <- <-]. exists []. rewrite app_nil_r. auto.
  - destruct node.
    + unfold bind at 1.
      destruct (chatbot_with_tools rt state env) as [[update|e0] env1] eqn:Hc;
        apply (chatbot_with_tools_trace rt state log) in Hc; try assumption;
        destruct Hc as [new1 [Hc1 [Hnew1 Hup]]].
      * destruct Hup as [new_output [-> Hprod]].
        assert (Hsent1 : Forall (sent_with_sysint log) new1).
        { destruct Hnew1 as [->|[_ ->]]; [constructor|].
          constructor; [|constructor]. exists []. rewrite app_nil_r. auto. }
        pose proof (messages_after_chatbot state log new_output Hlog) as Hlog'.
        unfold bind, lift.
        destruct (maybe_route_to_tools rt _) as [[n|]|e1].
        -- intros Hrun. apply (IH _ _ _ _ _ _ Hlog') in Hrun.
           destruct Hrun as [new2 [Hc2 [Hsent2 Hres]]].
           exists (new1 ++ new2)%list. rewrite app_assoc, <- Hc1, <- Hc2.
           split; [reflexivity|]. split.
           ++ apply Forall_app. split; [assumption|].
              apply (sent_weaken log [new_output]); auto.
           ++ destruct r as [result|e2]; [|exact I].
              destruct Hres as [appended [Hres [Happ _]]].
              exists (new_output :: appended). rewrite Hres, <- app_assoc.
              split; [reflexivity|]. split; [auto|discriminate].
        -- destruct steps as [|rest].
           ++ intros [= <- <-]. exists new1. auto.
           ++ intros [= <- <-]. exists new1. split; [assumption|]. split; [assumption|].
              exists [new_output]. split; [assumption|]. split; [auto|discriminate].
        -- intros [= <- <-]. exists new1. auto.
      * intros [= <- <-]. exists new1. split; [assumption|]. split; [|exact I].
        destruct Hnew1 as [->|[_ ->]]; [constructor|].
        constructor; [|constructor]. exists []. rewrite app_nil_r. auto.
    + unfold bind at 1.
      destruct (tool_node rt state env) as [[update|e0] env1] eqn:Ht;
        apply tool_node_trace in Ht; destruct Ht as [new1 [Hc1 [Hs1 [Hup _]]]].
      * destruct Hup as [outputs [-> Hprod]].
        pose proof (messages_after_tools state log outputs Hlog) as Hlog'.
        intros Hrun. apply (IH _ _ _ _ _ _ Hlog') in Hrun.
        destruct Hrun as [new2 [Hc2 [Hsent2 Hres]]].
        exists (new1 ++ new2)%list. rewrite app_assoc, <- Hc1, <- Hc2.
        split; [reflexivity|]. split.
        -- apply Forall_app. split; [apply silent_sent; assumption|].
           apply (sent_weaken log outputs); auto.
        -- destruct r as [result|e2]; [|exact I].
           destruct Hres as [appended [Hres [Happ Hne]]].
           exists (outputs ++ appended)%list. rewrite Hres, <- app_assoc.
           split; [reflexivity|]. split; [apply Forall_app; auto|].
           intros Heq. apply app_eq_nil in Heq. destruct Heq as [_ Heq]. auto.
      * intros [= <- <-]. exists new1. split; [assumption|].
        split; [apply silent_sent; assumption|exact I].
Qed.

Lemma graph_invoke_log state log recursion_limit env r env' :
  messages state = Some log ->
  graph_invoke rt state recursion_limit env = (r, env') ->
  exists new,
    calls env' = (calls env ++ new)%list
    /\ Forall (sent_with_sysint log) new
    /\ match r with
       | Ok result =>
           exists appended,
             messages result = Some (log ++ appended)%list
             /\ Forall produced appended /\ appended <> []
       | Raise _ => True
       end.
Proof.
  intros Hlog. unfold graph_invoke. destruct recursion_limit as [|limit].
  - intros [= <- <-]. exists []. rewrite app_nil_r. auto.
  - apply run_log. cbn. unfold get_messages. rewrite Hlog. reflexivity.
Qed.
End Log.

(** ** One chat input *)

Section Submit.
Context {W : Type} (rt : Runtime W).

(** What [submit] leaves and returns, by the outcome of the graph. *)
Lemma submit_outcome
  (prompt : string) (ss : SessionState) (log : list Message) (env : Env W) :
  messages (graph_state ss) = Some log ->
  exists turn env',
    submit rt prompt ss env = (Ok turn, env')
    /\ session_messages (after turn)
       = (session_messages ss ++ [("user", prompt); ("assistant", reply turn)])%list
    /\ (exists log', messages (graph_state (after turn)) = Some log')
    /\ (forall e env1,
           graph_invoke rt (with_prompt ss log prompt) 100 env = (Raise e, env1) ->
           reply turn = "Sorry, I encountered an error: " ++ str e
           /\ graph_state (after turn) = with_prompt ss log prompt
           /\ env' = env1)
    /\ (forall result env1,
           graph_invoke rt (with_prompt ss log prompt) 100 env = (Ok result, env1) ->
           graph_state (after turn) = result
           /\ env' = env1
           /\ exists front last_msg,
               messages result = Some (front ++ [last_msg])%list
               /\ reply turn = content last_msg).
Proof.
  intros Hlog. unfold submit, try_body. rewrite Hlog.
  fold (with_prompt ss log prompt).
  destruct (graph_invoke rt (with_prompt ss log prompt) 100 env)
    as [[result|e] env1] eqn:Hrun.
  - pose proof (graph_invoke_log rt (with_prompt ss log prompt)
                  (log ++ [HumanMessage prompt]) 100 env _ _ eq_refl Hrun) as Hinv.
    destruct Hinv as [new [_ [_ [appended [Hres [_ Hne]]]]]].
    destruct (nonempty_snoc appended Hne) as [front [last_msg ->]].
    rewrite app_assoc in Hres. rewrite Hres, last_message_snoc.
    do 2 eexists. split; [reflexivity|]. cbn [after session_messages reply graph_state].
    split; [rewrite <- app_assoc; reflexivity|].
    split; [eauto|]. split; [discriminate|].
    intros result' env1' [= <- <-]. split; [reflexivity|]. split; [reflexivity|].
    eauto.
  - do 2 eexists. split; [reflexivity|]. cbn [after session_messages reply graph_state].
    split; [rewrite <- app_assoc; reflexivity|].
    split; [eexists; reflexivity|]. split; [|discriminate].
    intros e' env1' [= <- <-]. auto.
Qed.

(** From a session that has a message log, every input of a sequence gets
    its text. *)
Lemma chat_returns_texts (prompts : list string) : forall ss log env,
  messages (graph_state ss) = Some log ->
  exists replies ss' env',
    chat rt prompts ss env = (Ok (replies, ss'), env')
    /\ List.length replies = List.length prompts.
Proof.
  induction prompts as [|prompt rest IH]; intros ss log env Hlog; cbn [chat].
  - do 3 eexists. split; reflexivity.
  - destruct (submit_outcome prompt ss log env Hlog)
      as (turn & env1 & Hsub & _ & [log' Hlog'] & _).
    destruct (IH (after turn) log' env1 Hlog') as (replies & ss' & env' & Hchat & Hlen).
    exists (reply turn :: replies), ss', env'.
    unfold bind. rewrite Hsub, Hchat. cbn. split; [reflexivity|]. lia.
Qed.

(** C6, as the code has it: on a session whose graph state has a message
    log, [submit] raises nothing and returns a text, which it appends to
    the displayed history as the assistant's entry after the user's.
    When the graph raises, that text is the error text built from the
    exception, and the graph state kept in the session is the one handed
    to the graph: the log with the user's message and no error message.
    The session left behind is again one on which every later input gets
    its text. *)
Theorem submit_returns_text
  (prompt : string) (ss : SessionState) (log : list Message) (env : Env W) :
  messages (graph_state ss) = Some log ->
  exists turn env',
    submit rt prompt ss env = (Ok turn, env')
    /\ session_messages (after turn)
       = (session_messages ss ++ [("user", prompt); ("assistant", reply turn)])%list
    /\ (forall e env1,
           graph_invoke rt (with_prompt ss log prompt) 100 env = (Raise e, env1) ->
           reply turn = "Sorry, I encountered an error: " ++ str e
           /\ messages (graph_state (after turn)) = Some (log ++ [HumanMessage prompt])%list
           /\ order (graph_state (after turn)) = order (graph_state ss)
           /\ finished (graph_state (after turn)) = finished (graph_state ss))
    /\ (forall later,
           exists replies ss' env'',
             chat rt later (after turn) env' = (Ok (replies, ss'), env'')
             /\ List.length replies = List.length later).
Proof.
  intros Hlog.
  destruct (submit_outcome prompt ss log env Hlog)
    as (turn & env' & Hsub & Hhist & [log' Hlog'] & Hraise & _).
  exists turn, env'. split; [assumption|]. split; [assumption|]. split.
  - intros e env1 Hrun. destruct (Hraise e env1 Hrun) as (Hreply & -> & _).
    split; [assumption|]. cbn. auto.
  - intros later. apply (chat_returns_texts later (after turn) log' env' Hlog').
Qed.

(** C7: in a turn, every gateway call is made on the system instruction
    followed by the log as it stands (the stored log, the user's message
    and the messages produced since), and the log stored after the turn
    is the stored log, the user's message and messages produced by the
    model or the tools: the system instruction is not added to it. *)
Theorem system_instruction_not_stored
  (prompt : string) (ss : SessionState) (log : list Message) (env : Env W) :
  messages (graph_state ss) = Some log ->
  exists turn env' new appended,
    submit rt prompt ss env = (Ok turn, env')
    /\ calls env' = (calls env ++ new)%list
    /\ Forall (sent_with_sysint (log ++ [HumanMessage prompt])) new
    /\ messages (graph_state (after turn))
       = Some (log ++ HumanMessage prompt :: appended)%list
    /\ Forall produced appended
    /\ (~ In GAMEBOT_SYSINT log ->
        ~ In GAMEBOT_SYSINT (log ++ HumanMessage prompt :: appended)).
Proof.
  intros Hlog.
  destruct (submit_outcome prompt ss log env Hlog)
    as [turn [env' [Hsub [_ [_ [Hraise Hok]]]]]].
  assert (Hfresh : forall appended, Forall produced appended ->
            ~ In GAMEBOT_SYSINT log ->
            ~ In GAMEBOT_SYSINT (log ++ HumanMessage prompt :: appended)).
  { intros appended Happ Hnot Hin. apply in_app_or in Hin.
    destruct Hin as [Hin|[Hin|Hin]]; [auto|discriminate|].
    rewrite Forall_forall in Happ. exact (Happ _ Hin). }
  destruct (graph_invoke rt (with_prompt ss log prompt) 100 env)
    as [[result|e] env1] eqn:Hrun;
    pose proof (graph_invoke_log rt (with_prompt ss log prompt)
                  (log ++ [HumanMessage prompt]) 100 env _ _ eq_refl Hrun)
      as [new [Hc [Hsent Hres]]].
  - destruct (Hok _ _ eq_refl) as [Hstate [-> _]].
    destruct Hres as [appended [Hres [Happ _]]].
    exists turn, env1, new, appended. rewrite Hstate, Hres, <- app_assoc.
    repeat split; auto.
  - destruct (Hraise _ _ eq_refl) as [_ [Hstate ->]].
    exists turn, env1, new, []. rewrite Hstate.
    repeat split; auto.
Qed.
End Submit.

Lemma submit_returns_text_witness :
  exists turn env',
    submit offline "hi" fresh_session env0 = (Ok turn, env')
    /\ reply turn = "Sorry, I encountered an error: 503 UNAVAILABLE"
    /\ messages (graph_state (after turn)) = Some [HumanMessage "hi"].
Proof.
  destruct (submit_returns_text offline "hi" fresh_session [] env0 eq_refl)
    as (turn & env' & Hsub & _ & Hraise & _).
  exists turn, env'. split; [exact Hsub|].
  destruct (Hraise unavailable
              (mkEnv tt [ChatCompletion [GAMEBOT_SYSINT; HumanMessage "hi"]]) eq_refl)
    as (Hreply & Hstored & _).
  split; [exact Hreply|exact Hstored].
Defined.

Lemma system_instruction_not_stored_witness :
  exists turn env' new appended,
    submit (answering "Chess is played on 64 squares.") "hi" fresh_session env0
    = (Ok turn, env')
    /\ calls env' = (calls env0 ++ new)%list
    /\ Forall (sent_with_sysint ([] ++ [HumanMessage "hi"])) new
    /\ messages (graph_state (after turn)) = Some ([] ++ HumanMessage "hi" :: appended)%list
    /\ Forall produced appended
    /\ (~ In GAMEBOT_SYSINT [] -> ~ In GAMEBOT_SYSINT ([] ++ HumanMessage "hi" :: appended)).
Proof.
  apply (system_instruction_not_stored (answering "Chess is played on 64 squares.")
           "hi" fresh_session [] env0).
  reflexivity.
Defined.

(** C6 fails as stated: with the model down, [submit] returns the error
    text and shows it in the displayed history, but the conversation state
    it keeps holds the user's message alone; the error text is not
    appended to it. *)
Lemma submit_error_not_in_state :
  submit offline "hi" fresh_session env0
  = (Ok {| reply := "Sorry, I encountered an error: 503 UNAVAILABLE";
           after :=
             {| session_messages :=
                  [("user", "hi");
                   ("assistant", "Sorry, I encountered an error: 503 UNAVAILABLE")];
                graph_state :=
                  {| messages := Some [HumanMessage "hi"];
                     order := Some [];
                     finished := Some false |} |};
           drawn :=
             [chat_message "user" (markdown "hi");
              chat_message "assistant"
                (error "Sorry, I encountered an error: 503 UNAVAILABLE")] |},
     mkEnv tt [ChatCompletion [GAMEBOT_SYSINT; HumanMessage "hi"]]).
Proof.
  vm_compute. reflexivity.
Qed.

(** ** The chatbot node *)

Section Chatbot.
Context {W : Type} (rt : Runtime W).

(** C8: a run of the chatbot node that returns (it does whenever the log
    is empty or the gateway answers) returns exactly one message under
    [messages], which the reducer appends to the log, and returns the
    [order] and [finished] it was given when they are present, so that
    the state keeps them unchanged. *)
Theorem chatbot_appends_one_message
  (state : GameState) (log : list Message) (env : Env W) :
  messages state = Some log ->
  (log = [] \/ is_ok (fst (llm_invoke rt (world env) (GAMEBOT_SYSINT :: log))) = true ->
   is_ok (fst (chatbot_with_tools rt state env)) = true)
  /\ (forall update env',
        chatbot_with_tools rt state env = (Ok update, env') ->
        (exists new_output,
            messages update = Some [new_output]
            /\ messages (apply_writes state update) = Some (log ++ [new_output])%list
            /\ List.length (log ++ [new_output]) = S (List.length log))
        /\ (forall o, order state = Some o ->
                      order update = Some o
                      /\ order (apply_writes state update) = Some o)
        /\ (forall b, finished state = Some b ->
                      finished update = Some b
                      /\ finished (apply_writes state update) = Some b)).
Proof.
  intros Hlog. split.
  - unfold chatbot_with_tools. rewrite Hlog. intros [->|Hok]; [reflexivity|].
    destruct log as [|msg log]; [reflexivity|].
    unfold bind, llm_with_tools_invoke, ret.
    destruct (llm_invoke rt (world env) (GAMEBOT_SYSINT :: msg :: log))
      as [[[text requests]|e0] w]; [reflexivity|discriminate Hok].
  - intros update env' Hrun.
    apply (chatbot_with_tools_trace rt state log) in Hrun; [|assumption].
    destruct Hrun as [new [_ [_ [new_output [-> _]]]]].
    split; [|split].
    + exists new_output. split; [reflexivity|].
      split; [apply messages_after_chatbot; assumption|].
      rewrite length_app. cbn. lia.
    + intros o Ho. cbn. rewrite Ho. auto.
    + intros b Hb. cbn. rewrite Hb. auto.
Qed.
End Chatbot.

Lemma chatbot_appends_one_message_witness :
  let state := mkGameState (Some [HumanMessage "hi"]) (Some ["Chess"]) (Some true) in
  let rt := answering "Chess is played on 64 squares." in
  is_ok (fst (chatbot_with_tools rt state env0)) = true
  /\ forall update env',
       chatbot_with_tools rt state env0 = (Ok update, env') ->
       order (apply_writes state update) = Some ["Chess"]
       /\ finished (apply_writes state update) = Some true.
Proof.
  cbv zeta.
  destruct (chatbot_appends_one_message (answering "Chess is played on 64 squares.")
              (mkGameState (Some [HumanMessage "hi"]) (Some ["Chess"]) (Some true))
              [HumanMessage "hi"] env0 eq_refl) as [Hreturns Hframe].
  split.
  - apply Hreturns. right. reflexivity.
  - intros update env' Hrun.
    destruct (Hframe update env' Hrun) as [_ [Horder Hfinished]].
    split.
    + apply (Horder ["Chess"]). reflexivity.
    + apply (Hfinished true). reflexivity.
Defined.

(** ** Tool cycles and the recursion limit *)

Section ToolCycle.
Context {W : Type} (rt : Runtime W).

Lemma handled_never_fails :
  tool_errors_handled rt -> forall call, never_fails rt call.
Proof.
  intros Hhandled call env.
  destruct (run_one rt call env) as [r env'] eqn:Hrun.
  apply run_one_trace in Hrun. destruct Hrun as (new & _ & _ & _ & Hok).
  cbn [fst]. apply Hok. exact Hhandled.
Qed.

Lemma handled_requests_answered :
  tool_errors_handled rt -> requested_tools_answered rt.
Proof.
  intros Hhandled w msgs text requests w' _.
  apply Forall_forall. intros call _. apply handled_never_fails. exact Hhandled.
Qed.

Lemma mapM_answered requests :
  Forall (never_fails rt) requests ->
  forall env, is_ok (fst (mapM (run_one rt) requests env)) = true.
Proof.
  induction 1 as [|call requests Hcall _ IH]; intros env; cbn [mapM].
  - reflexivity.
  - unfold bind at 1. specialize (Hcall env).
    destruct (run_one rt call env) as [[msg|e] env1]; [|discriminate Hcall].
    unfold bind at 1. specialize (IH env1).
    destruct (mapM (run_one rt) requests env1) as [[outputs|e] env2];
      [reflexivity|discriminate IH].
Qed.

Lemma tool_node_answered state front text requests env :
  get_messages state = (front ++ [AIMessage text requests])%list ->
  Forall (never_fails rt) requests ->
  is_ok (fst (tool_node rt state env)) = true.
Proof.
  intros Hlog Hanswered. unfold tool_node. rewrite Hlog, last_message_snoc.
  unfold bind. pose proof (mapM_answered requests Hanswered env) as Hok.
  destruct (mapM (run_one rt) requests env) as [[outputs|e] env1];
    [reflexivity|discriminate Hok].
Qed.

(** With a model that always asks for a tool, a run never reaches [END]:
    it ends on an exception after at most one gateway call per two
    steps, and, when every requested tool call is answered, on the
    recursion error after exactly that many. *)
Lemma run_tool_cycle limit steps : forall node state log env,
  always_requests_tool rt ->
  messages state = Some log ->
  log <> [] ->
  (node = tools ->
   exists front text requests,
     log = (front ++ [AIMessage text requests])%list
     /\ (requested_tools_answered rt -> Forall (never_fails rt) requests)) ->
  exists e env' new,
    run rt limit steps node state env = (Raise e, env')
    /\ calls env' = (calls env ++ new)%list
    /\ 2 * round_trips new <= steps + parity node
    /\ (requested_tools_answered rt ->
        e = Exn GraphRecursionError (recursion_error rt limit)
        /\ steps + parity node <= 2 * round_trips new + 1).
Proof.
  induction steps as [|steps IH]; intros node state log env Hllm Hlog Hne Hlast; cbn [run].
  - exists (Exn GraphRecursionError (recursion_error rt limit)), env, [].
    rewrite app_nil_r. split; [reflexivity|]. split; [reflexivity|].
    cbn. split; [lia|]. intros _. split; [reflexivity|]. destruct node; cbn; lia.
  - destruct node.
    + unfold bind at 1. unfold chatbot_with_tools. rewrite Hlog.
      destruct log as [|msg log]; [contradiction|].
      unfold bind at 1. unfold llm_with_tools_invoke.
      destruct (Hllm (world env) (GAMEBOT_SYSINT :: msg :: log))
        as (text & requests & w' & Hcall & Hreq).
      rewrite Hcall. unfold ret at 1.
      pose proof (messages_after_chatbot state (msg :: log)
                    (AIMessage text requests) Hlog) as Hlog'.
      unfold bind at 1. unfold lift.
      rewrite (route_on_last rt _ (msg :: log) (AIMessage text requests)
                 (get_messages_some _ _ Hlog')).
      cbn [tool_calls]. destruct requests as [|call requests]; [contradiction|].
      destruct (IH tools _ _ (mkEnv w' (calls env ++ [ChatCompletion (GAMEBOT_SYSINT :: msg :: log)]))
                   Hllm Hlog')
        as (e & env' & new & Hrun & Hcalls & Hle & Hexact).
      { destruct log; discriminate. }
      { intros _. exists (msg :: log), text, (call :: requests).
        split; [reflexivity|]. intros Hanswered. exact (Hanswered _ _ _ _ _ Hcall). }
      exists e, env', (ChatCompletion (GAMEBOT_SYSINT :: msg :: log) :: new).
      split; [exact Hrun|]. split.
      { rewrite Hcalls. cbn [calls]. rewrite <- app_assoc. reflexivity. }
      change (round_trips (ChatCompletion (GAMEBOT_SYSINT :: msg :: log) :: new))
        with (S (round_trips new)).
      cbn [parity] in *. split; [lia|].
      intros Hh. destruct (Hexact Hh) as [-> Hge]. split; [reflexivity|lia].
    + unfold bind at 1.
      destruct (tool_node rt state env) as [[update|e0] env1] eqn:Ht;
        pose proof (tool_node_trace rt _ _ _ _ Ht) as (new1 & Hc1 & Hs1 & Hup & _).
      * destruct Hup as [outputs [-> _]].
        pose proof (messages_after_tools state log outputs Hlog) as Hlog'.
        destruct (IH chatbot _ _ env1 Hllm Hlog')
          as (e & env' & new & Hrun & Hcalls & Hle & Hexact).
        { intros Heq. apply app_eq_nil in Heq. destruct Heq as [Heq _]. auto. }
        { discriminate. }
        exists e, env', (new1 ++ new)%list.
        split; [exact Hrun|]. split.
        { rewrite Hcalls, Hc1, <- app_assoc. reflexivity. }
        rewrite round_trips_app, (silent_round_trips new1 Hs1).
        cbn [parity] in *. split; [lia|].
        intros Hh. destruct (Hexact Hh) as [-> Hge]. split; [reflexivity|lia].
      * exists e0, env1, new1. split; [reflexivity|]. split; [assumption|].
        rewrite (silent_round_trips new1 Hs1). split; [lia|].
        intros Hh. exfalso.
        destruct (Hlast eq_refl) as (front & text & requests & -> & Hanswered).
        pose proof (tool_node_answered state front text requests env
                      (get_messages_some _ _ Hlog) (Hanswered Hh)) as Hok.
        rewrite Ht in Hok. discriminate Hok.
Qed.

(** The same for an invocation of the graph on the state of a turn. *)
Lemma graph_invoke_tool_cycle ss log prompt limit env :
  always_requests_tool rt ->
  exists e env' new,
    graph_invoke rt (with_prompt ss log prompt) (S limit) env = (Raise e, env')
    /\ calls env' = (calls env ++ new)%list
    /\ 2 * round_trips new <= S limit + 1
    /\ (requested_tools_answered rt ->
        e = Exn GraphRecursionError (recursion_error rt (S limit))
        /\ S limit + 1 <= 2 * round_trips new + 1).
Proof.
  intros Hllm. unfold graph_invoke.
  destruct (run_tool_cycle (S limit) (S limit) chatbot
              (apply_writes empty_channels (with_prompt ss log prompt))
              (log ++ [HumanMessage prompt]) env Hllm eq_refl)
    as (e & env1 & new & Hrun & Hcalls & Hle & Hexact).
  { destruct log; discriminate. }
  { discriminate. }
  exists e, env1, new. auto.
Qed.

(** C5, as the code has it: when the model asks for a tool at every
    call, the graph never returns: under any recursion limit it ends on
    an exception after at most one gateway round-trip per two steps.
    Under the limit of 100 that [submit] sets, the turn ends after at
    most 50 round-trips, and [submit] returns the error text of the
    exception.  When every tool call the model asks for is answered by a
    tool message (the tool returns, or the tool node turns its error into
    a message), that exception is the recursion error and the turn has
    made exactly 50 round-trips.  In every case the graph state [submit]
    keeps is the stored log followed by the user's message, with the
    auxiliary fields as they were: the requests and tool results produced
    by the run are not stored, so no tool call is left pending in it. *)
Theorem tool_cycle_halted_by_recursion_limit
  (prompt : string) (ss : SessionState) (log : list Message) (env : Env W) :
  messages (graph_state ss) = Some log ->
  always_requests_tool rt ->
  (forall recursion_limit,
      exists e env' new,
        graph_invoke rt (with_prompt ss log prompt) recursion_limit env = (Raise e, env')
        /\ calls env' = (calls env ++ new)%list
        /\ 2 * round_trips new <= recursion_limit + 1)
  /\ exists turn env' e new,
      submit rt prompt ss env = (Ok turn, env')
      /\ reply turn = "Sorry, I encountered an error: " ++ str e
      /\ calls env' = (calls env ++ new)%list
      /\ round_trips new <= 50
      /\ graph_state (after turn) = with_prompt ss log prompt
      /\ (requested_tools_answered rt ->
          e = Exn GraphRecursionError (recursion_error rt 100)
          /\ round_trips new = 50).
Proof.
  intros Hlog Hllm. split.
  { intros [|limit].
    - exists (Exn ValueError "recursion_limit must be at least 1"), env, [].
      rewrite app_nil_r. cbn. auto.
    - destruct (graph_invoke_tool_cycle ss log prompt limit env Hllm)
        as (e & env1 & new & Hrun & Hcalls & Hle & _).
      exists e, env1, new. auto. }
  destruct (submit_outcome rt prompt ss log env Hlog)
    as (turn & env' & Hsub & _ & _ & Hraise & _).
  destruct (graph_invoke_tool_cycle ss log prompt 99 env Hllm)
    as (e & env1 & new & Hrun & Hcalls & Hle & Hexact).
  destruct (Hraise e env1 Hrun) as (Hreply & Hstate & ->).
  exists turn, env1, e, new.
  split; [assumption|]. split; [assumption|]. split; [assumption|].
  split; [lia|]. split; [assumption|].
  intros Hh. destruct (Hexact Hh) as [-> Hge]. split; [reflexivity|lia].
Qed.
End ToolCycle.

Lemma looping_always_requests_tool : always_requests_tool looping.
Proof.
  intros w msgs. exists "", [list_games_call], w.
  split; [reflexivity|discriminate].
Defined.

Lemma looping_requests_answered : requested_tools_answered looping.
Proof.
  intros w msgs text requests w' Hcall. injection Hcall as _ <- _.
  constructor; [|constructor]. intros env. reflexivity.
Defined.

Lemma tool_cycle_halted_by_recursion_limit_witness :
  exists turn env' new,
    submit looping "hi" fresh_session env0 = (Ok turn, env')
    /\ reply turn
       = "Sorry, I encountered an error: "
         ++ str (Exn GraphRecursionError (recursion_error looping 100))
    /\ calls env' = (calls env0 ++ new)%list
    /\ round_trips new = 50
    /\ graph_state (after turn) = with_prompt fresh_session [] "hi".
Proof.
  destruct (tool_cycle_halted_by_recursion_limit looping "hi" fresh_session [] env0
              eq_refl looping_always_requests_tool)
    as (_ & turn & env' & e & new & Hsub & Hreply & Hcalls & _ & Hstate & Hexact).
  destruct (Hexact looping_requests_answered) as [He Hfifty].
  exists turn, env', new. rewrite <- He.
  split; [exact Hsub|]. split; [exact Hreply|]. split; [exact Hcalls|].
  split; [exact Hfifty|exact Hstate].
Defined.

(** C5 fails as stated: with a model that asks for [get_list_game] at
    every call, the turn on a fresh session is halted after 50 gateway
    round-trips, not 100, and the messages appended during the run are
    lost: the second gateway call was made on a log that held the first
    request and its tool result, while the conversation state kept after
    the turn holds the user's message alone. *)
Lemma tool_cycle_run_messages_dropped :
  let out := submit looping "hi" fresh_session env0 in
  fst out
  = Ok {| reply := "Sorry, I encountered an error: Recursion limit reached";
          after :=
            {| session_messages :=
                 [("user", "hi");
                  ("assistant", "Sorry, I encountered an error: Recursion limit reached")];
               graph_state :=
                 {| messages := Some [HumanMessage "hi"];
                    order := Some [];
                    finished := Some false |} |};
          drawn :=
            [chat_message "user" (markdown "hi");
             chat_message "assistant"
               (error "Sorry, I encountered an error: Recursion limit reached")] |}
  /\ round_trips (calls (snd out)) = 50
  /\ nth_error (calls (snd out)) 1
     = Some (ChatCompletion
               [GAMEBOT_SYSINT; HumanMessage "hi";
                AIMessage "" [list_games_call];
                ToolMessage (get_list_game tt) "call_0"]).
Proof.
  vm_compute. repeat split.
Qed.

(** ** Steps of the graph *)

Section Steps.
Context {W : Type} (rt : Runtime W).

Lemma run_chatbot_step limit steps state :
  run rt limit (S steps) chatbot state
  = (update <- chatbot_with_tools rt state ;;
     route <- lift (maybe_route_to_tools rt (apply_writes state update)) ;;
     match route with
     | Next n => run rt limit steps n (apply_writes state update)
     | END =>
         match steps with
         | O => raise (Exn GraphRecursionError (recursion_error rt limit))
         | S _ => ret (apply_writes state update)
         end
     end).
Proof. reflexivity. Qed.

Lemma run_tools_step limit steps state :
  run rt limit (S steps) tools state
  = (update <- tool_node rt state ;;
     run rt limit steps chatbot (apply_writes state update)).
Proof. reflexivity. Qed.

(** The chatbot node returns a model reply under [messages], over the
    state it was given and the defaults. *)
Lemma chatbot_output state env update env' :
  chatbot_with_tools rt state env = (Ok update, env') ->
  exists log text requests,
    messages state = Some log
    /\ update = defaults ||| state ||| only_messages [AIMessage text requests].
Proof.
  unfold chatbot_with_tools.
  destruct (messages state) as [log|]; [|discriminate].
  destruct log as [|msg log].
  - intros [= <- <-]. eauto.
  - unfold bind, llm_with_tools_invoke, ret.
    destruct (llm_invoke rt (world env) (GAMEBOT_SYSINT :: msg :: log))
      as [[[text requests]|e0] w]; [|discriminate].
    intros [= <- <-]. eauto.
Qed.

Lemma chatbot_round_trips state env r env' :
  chatbot_with_tools rt state env = (r, env') ->
  exists new, calls env' = (calls env ++ new)%list /\ round_trips new <= 1.
Proof.
  unfold chatbot_with_tools.
  destruct (messages state) as [log|].
  - destruct log as [|msg log].
    + intros [= <- <-]. exists []. rewrite app_nil_r. cbn. auto.
    + unfold bind, llm_with_tools_invoke, ret.
      destruct (llm_invoke rt (world env) (GAMEBOT_SYSINT :: msg :: log))
        as [[[text requests]|e0] w]; intros [= <- <-];
        exists [ChatCompletion (GAMEBOT_SYSINT :: msg :: log)]; cbn; auto.
  - intros [= <- <-]. exists []. rewrite app_nil_r. cbn. auto.
Qed.

Lemma route_next_is_tools state n :
  maybe_route_to_tools rt state = Ok (Next n) -> n = tools.
Proof.
  unfold maybe_route_to_tools.
  destruct (last_message (get_messages state)) as [msg|]; [|discriminate].
  destruct (tool_calls msg) as [requests|]; [|discriminate].
  destruct (0 <? List.length requests)%nat; [|discriminate].
  intros [= <-]. reflexivity.
Qed.

(** Whatever the model answers, a run makes at most one gateway call per
    two steps. *)
Lemma run_round_trips limit steps : forall node state env r env',
  run rt limit steps node state env = (r, env') ->
  exists new,
    calls env' = (calls env ++ new)%list
    /\ 2 * round_trips new <= steps + parity node.
Proof.
  induction steps as [|steps IH]; intros node state env r env'.
  - intros [= <- <-]. exists []. rewrite app_nil_r. cbn. split; [reflexivity|lia].
  - destruct node.
    + rewrite run_chatbot_step. unfold bind at 1.
      destruct (chatbot_with_tools rt state env) as [[update|e0] env1] eqn:Hc;
        apply chatbot_round_trips in Hc; destruct Hc as (new1 & Hc1 & Hle1).
      * unfold bind, lift.
        destruct (maybe_route_to_tools rt (apply_writes state update))
          as [[n|]|e1] eqn:Hroute.
        -- apply route_next_is_tools in Hroute. subst n.
           intros Hrun. apply IH in Hrun. destruct Hrun as (new2 & Hc2 & Hle2).
           exists (new1 ++ new2)%list. rewrite app_assoc, <- Hc1, <- Hc2.
           split; [reflexivity|]. rewrite round_trips_app. cbn [parity] in *. lia.
        -- destruct steps as [|rest]; intros [= <- <-]; exists new1;
             (split; [assumption|]); cbn [parity]; lia.
        -- intros [= <- <-]. exists new1. split; [assumption|]. cbn [parity]. lia.
      * intros [= <- <-]. exists new1. split; [assumption|]. cbn [parity]. lia.
    + rewrite run_tools_step. unfold bind at 1.
      destruct (tool_node rt state env) as [[update|e0] env1] eqn:Ht;
        apply tool_node_trace in Ht; destruct Ht as (new1 & Hc1 & Hs1 & _).
      * intros Hrun. apply IH in Hrun. destruct Hrun as (new2 & Hc2 & Hle2).
        exists (new1 ++ new2)%list. rewrite app_assoc, <- Hc1, <- Hc2.
        split; [reflexivity|].
        rewrite round_trips_app, (silent_round_trips new1 Hs1).
        cbn [parity] in *. lia.
      * intros [= <- <-]. exists new1. split; [assumption|].
        rewrite (silent_round_trips new1 Hs1). lia.
Qed.

(** A run that returns ends on a model reply without requests, and
    leaves [order] and [finished] as given, or filled with the defaults. *)
Lemma run_returns limit steps : forall node state log env result env',
  messages state = Some log ->
  run rt limit steps node state env = (Ok result, env') ->
  (exists front text, messages result = Some (front ++ [AIMessage text []])%list)
  /\ order result = Some (filled_order state)
  /\ finished result = Some (filled_finished state).
Proof.
  induction steps as [|steps IH]; intros node state log env result env' Hlog.
  - discriminate.
  - destruct node.
    + rewrite run_chatbot_step. unfold bind at 1.
      destruct (chatbot_with_tools rt state env) as [[update|e0] env1] eqn:Hc;
        [|discriminate].
      apply chatbot_output in Hc.
      destruct Hc as (log0 & text & requests & Hlog0 & ->).
      rewrite Hlog in Hlog0. injection Hlog0 as <-.
      pose proof (messages_after_chatbot state log (AIMessage text requests) Hlog)
        as Hlog'.
      unfold bind, lift.
      rewrite (route_on_last rt _ log (AIMessage text requests)
                 (get_messages_some _ _ Hlog')).
      cbn [tool_calls].
      assert (Haux : filled_order
                       (apply_writes state
                          (defaults ||| state ||| only_messages [AIMessage text requests]))
                     = filled_order state
                     /\ filled_finished
                          (apply_writes state
                             (defaults ||| state ||| only_messages [AIMessage text requests]))
                        = filled_finished state).
      { unfold filled_order, filled_finished. cbn.
        destruct (order state), (finished state); auto. }
      destruct requests as [|call requests].
      * destruct steps as [|rest]; [discriminate|].
        intros [= <- <-]. split; [eauto|].
        unfold filled_order, filled_finished. cbn.
        destruct (order state), (finished state); auto.
      * intros Hrun. apply (IH _ _ _ _ _ _ Hlog') in Hrun.
        destruct Haux as [-> ->] in Hrun. exact Hrun.
    + rewrite run_tools_step. unfold bind at 1.
      destruct (tool_node rt state env) as [[update|e0] env1] eqn:Ht; [|discriminate].
      apply tool_node_trace in Ht. destruct Ht as (new1 & _ & _ & Hup & _).
      destruct Hup as [outputs [-> _]].
      pose proof (messages_after_tools state log outputs Hlog) as Hlog'.
      intros Hrun. apply (IH _ _ _ _ _ _ Hlog') in Hrun.
      unfold filled_order, filled_finished in *. cbn in Hrun.
      destruct (order state), (finished state); exact Hrun.
Qed.

Lemma graph_invoke_round_trips input recursion_limit env r env' :
  graph_invoke rt input recursion_limit env = (r, env') ->
  exists new,
    calls env' = (calls env ++ new)%list
    /\ 2 * round_trips new <= recursion_limit + 1.
Proof.
  unfold graph_invoke. destruct recursion_limit as [|limit].
  - intros [= <- <-]. exists []. rewrite app_nil_r. cbn. split; [reflexivity|lia].
  - intros Hrun. apply run_round_trips in Hrun. exact Hrun.
Qed.

Lemma graph_invoke_returns input recursion_limit env result env' :
  graph_invoke rt input recursion_limit env = (Ok result, env') ->
  (exists front text, messages result = Some (front ++ [AIMessage text []])%list)
  /\ order result = Some (filled_order input)
  /\ finished result = Some (filled_finished input).
Proof.
  unfold graph_invoke. destruct recursion_limit as [|limit]; [discriminate|].
  intros Hrun.
  assert (Hstart : exists log, messages (apply_writes empty_channels input) = Some log).
  { cbn. destruct (messages input); eauto. }
  destruct Hstart as [log Hstart].
  apply (run_returns _ _ _ _ log) in Hrun; [|assumption].
  destruct Hrun as (Hfinal & Ho & Hf). split; [assumption|].
  rewrite Ho, Hf. unfold filled_order, filled_finished. cbn.
  destruct (order input), (finished input); auto.
Qed.
End Steps.

(** ** Turns and sessions *)

Lemma filter_human_produced (appended : list Message) :
  Forall produced appended -> filter is_human appended = [].
Proof.
  induction 1 as [|msg appended Hmsg _ IH]; [reflexivity|].
  destruct msg; try contradiction; exact IH.
Qed.

Section Turns.
Context {W : Type} (rt : Runtime W).

(** A turn, whatever its outcome: what it shows, what it stores and what
    it costs. *)
Lemma submit_frame prompt ss log env :
  messages (graph_state ss) = Some log ->
  exists turn env' appended new,
    submit rt prompt ss env = (Ok turn, env')
    /\ session_messages (after turn)
       = (session_messages ss ++ [("user", prompt); ("assistant", reply turn)])%list
    /\ messages (graph_state (after turn))
       = Some (log ++ HumanMessage prompt :: appended)%list
    /\ Forall produced appended
    /\ (forall o, order (graph_state ss) = Some o ->
                  order (graph_state (after turn)) = Some o)
    /\ (forall b, finished (graph_state ss) = Some b ->
                  finished (graph_state (after turn)) = Some b)
    /\ calls env' = (calls env ++ new)%list
    /\ round_trips new <= 50
    /\ ((appended = [] /\ exists e, reply turn = "Sorry, I encountered an error: " ++ str e)
        \/ (exists front text,
               appended = (front ++ [AIMessage text []])%list /\ reply turn = text)).
Proof.
  intros Hlog.
  destruct (submit_outcome rt prompt ss log env Hlog)
    as (turn & env' & Hsub & Hhist & _ & Hraise & Hok).
  destruct (graph_invoke rt (with_prompt ss log prompt) 100 env)
    as [[result|e] env1] eqn:Hrun.
  - destruct (Hok _ _ eq_refl) as (Hstate & -> & front0 & last_msg & Hres0 & Hreply).
    pose proof (graph_invoke_log rt (with_prompt ss log prompt)
                  (log ++ [HumanMessage prompt]) 100 env _ _ eq_refl Hrun)
      as (new0 & _ & _ & appended & Hres & Happ & _).
    destruct (graph_invoke_round_trips rt _ _ _ _ _ Hrun) as (new & Hcalls & Hle).
    destruct (graph_invoke_returns rt _ _ _ _ _ Hrun)
      as ((front & text & Hfinal) & Ho & Hf).
    exists turn, env1, appended, new. rewrite Hstate.
    split; [assumption|]. split; [assumption|].
    split; [rewrite Hres, <- app_assoc; reflexivity|].
    split; [assumption|].
    split; [intros o Hsome; rewrite Ho; unfold filled_order; cbn;
            rewrite Hsome; reflexivity|].
    split; [intros b Hsome; rewrite Hf; unfold filled_finished; cbn;
            rewrite Hsome; reflexivity|].
    split; [assumption|]. split; [lia|].
    right.
    rewrite Hres0 in Hfinal. injection Hfinal as Hfinal.
    apply app_inj_tail in Hfinal. destruct Hfinal as [-> ->].
    rewrite Hres in Hres0. injection Hres0 as Hres0.
    destruct (nonempty_snoc appended) as (front1 & last1 & ->).
    { intros ->. rewrite app_nil_r in Hres0.
      apply app_inj_tail in Hres0. destruct Hres0 as [_ Hres0]. discriminate. }
    rewrite app_assoc in Hres0. apply app_inj_tail in Hres0.
    destruct Hres0 as [_ ->]. exists front1, text. split; [reflexivity|exact Hreply].
  - destruct (Hraise _ _ eq_refl) as (Hreply & Hstate & ->).
    destruct (graph_invoke_round_trips rt _ _ _ _ _ Hrun) as (new & Hcalls & Hle).
    exists turn, env1, [], new. rewrite Hstate.
    split; [assumption|]. split; [assumption|].
    split; [reflexivity|]. split; [constructor|].
    split; [auto|]. split; [auto|]. split; [assumption|].
    split; [lia|].
    left. eauto.
Qed.

(** A sequence of inputs: what the session shows and stores after it. *)
Lemma chat_frame prompts : forall ss log env,
  messages (graph_state ss) = Some log ->
  exists replies ss' env' ext,
    chat rt prompts ss env = (Ok (replies, ss'), env')
    /\ List.length replies = List.length prompts
    /\ session_messages ss' = (session_messages ss ++ transcript prompts replies)%list
    /\ messages (graph_state ss') = Some (log ++ ext)%list
    /\ filter is_human ext = map HumanMessage prompts
    /\ (forall o, order (graph_state ss) = Some o -> order (graph_state ss') = Some o)
    /\ (forall b, finished (graph_state ss) = Some b ->
                  finished (graph_state ss') = Some b).
Proof.
  induction prompts as [|prompt rest IH]; intros ss log env Hlog; cbn [chat].
  - exists [], ss, env, []. rewrite !app_nil_r. repeat split; auto.
  - destruct (submit_frame prompt ss log env Hlog)
      as (turn & env1 & appended & new & Hsub & Hhist & Hstored & Happ & Ho & Hf & _).
    destruct (IH (after turn) _ env1 Hstored)
      as (replies & ss' & env' & ext & Hchat & Hlen & Hhist' & Hstored' & Hhum & Ho' & Hf').
    exists (reply turn :: replies), ss', env', (HumanMessage prompt :: appended ++ ext)%list.
    unfold bind. rewrite Hsub, Hchat. cbn [ret fst snd].
    split; [reflexivity|]. split; [cbn; lia|].
    split; [rewrite Hhist', Hhist, <- app_assoc; reflexivity|].
    split; [rewrite Hstored', <- app_assoc; reflexivity|].
    split; [cbn; rewrite filter_app, (filter_human_produced appended Happ), Hhum;
            reflexivity|].
    split; auto.
Qed.
End Turns.

(** ** The first gateway call of a turn *)

Section FirstCall.
Context {W : Type} (rt : Runtime W).

(** The chatbot node on a log that is not empty: one gateway call, on the
    system instruction and the log. *)
Lemma chatbot_on_log state log env :
  messages state = Some log ->
  log <> [] ->
  chatbot_with_tools rt state env
  = (let (r, w) := llm_invoke rt (world env) (GAMEBOT_SYSINT :: log) in
     let env' := mkEnv w (calls env ++ [ChatCompletion (GAMEBOT_SYSINT :: log)]) in
     match r with
     | Ok (text, requests) =>
         (Ok (defaults ||| state ||| only_messages [AIMessage text requests]), env')
     | Raise e => (Raise e, env')
     end).
Proof.
  intros Hlog Hne. unfold chatbot_with_tools. rewrite Hlog.
  destruct log as [|msg log]; [contradiction|].
  unfold bind, llm_with_tools_invoke, ret.
  destruct (llm_invoke rt (world env) (GAMEBOT_SYSINT :: msg :: log))
    as [[[text requests]|e] w]; reflexivity.
Qed.

Lemma start_messages ss log prompt :
  messages (apply_writes empty_channels (with_prompt ss log prompt))
  = Some (log ++ [HumanMessage prompt])%list.
Proof. reflexivity. Qed.

Lemma snoc_not_nil {A} (l : list A) (x : A) : (l ++ [x])%list <> [].
Proof. destruct l; discriminate. Qed.

Lemma graph_invoke_down ss log prompt steps env e w :
  llm_invoke rt (world env) (GAMEBOT_SYSINT :: log ++ [HumanMessage prompt]) = (Raise e, w) ->
  graph_invoke rt (with_prompt ss log prompt) (S steps) env
  = (Raise e,
     mkEnv w (calls env ++ [ChatCompletion (GAMEBOT_SYSINT :: log ++ [HumanMessage prompt])])).
Proof.
  intros Hcall. unfold graph_invoke. rewrite run_chatbot_step. unfold bind at 1.
  rewrite (chatbot_on_log _ _ env (start_messages ss log prompt) (snoc_not_nil _ _)).
  rewrite Hcall. reflexivity.
Qed.

Lemma graph_invoke_answer ss log prompt steps env text w :
  llm_invoke rt (world env) (GAMEBOT_SYSINT :: log ++ [HumanMessage prompt])
  = (Ok (text, []), w) ->
  exists result,
    graph_invoke rt (with_prompt ss log prompt) (S (S steps)) env
    = (Ok result,
       mkEnv w (calls env ++ [ChatCompletion (GAMEBOT_SYSINT :: log ++ [HumanMessage prompt])]))
    /\ messages result = Some (log ++ [HumanMessage prompt; AIMessage text []])%list.
Proof.
  intros Hcall. unfold graph_invoke. rewrite run_chatbot_step. unfold bind at 1.
  rewrite (chatbot_on_log _ _ env (start_messages ss log prompt) (snoc_not_nil _ _)).
  rewrite Hcall.
  pose proof (messages_after_chatbot _ _ (AIMessage text [])
                (start_messages ss log prompt)) as Hlog'.
  unfold bind, lift.
  rewrite (route_on_last rt _ _ (AIMessage text []) (get_messages_some _ _ Hlog')).
  cbn [tool_calls]. eexists. split; [reflexivity|].
  rewrite Hlog', <- app_assoc. reflexivity.
Qed.

(** The first gateway call of a turn is made on the system instruction,
    the stored log and the user's message. *)
Lemma graph_invoke_first_call ss log prompt steps env r env' :
  graph_invoke rt (with_prompt ss log prompt) (S steps) env = (r, env') ->
  exists later,
    calls env'
    = (calls env
       ++ ChatCompletion (GAMEBOT_SYSINT :: log ++ [HumanMessage prompt]) :: later)%list.
Proof.
  unfold graph_invoke. rewrite run_chatbot_step. unfold bind at 1.
  rewrite (chatbot_on_log _ _ env (start_messages ss log prompt) (snoc_not_nil _ _)).
  destruct (llm_invoke rt (world env) _) as [[[text requests]|e] w].
  - unfold bind, lift.
    destruct (maybe_route_to_tools rt _) as [[n|]|e1].
    + intros Hrun. apply run_round_trips in Hrun.
      destruct Hrun as (new & Hcalls & _). exists new.
      rewrite Hcalls. cbn [calls]. rewrite <- app_assoc. reflexivity.
    + destruct steps as [|rest]; intros [= <- <-]; exists []; reflexivity.
    + intros [= <- <-]. exists []. reflexivity.
  - intros [= <- <-]. exists []. reflexivity.
Qed.
End FirstCall.

(** ** A round trip through a tool *)

Section ToolRoundTrip.
Context {W : Type} (rt : Runtime W).

Lemma run_one_list_games call env :
  name call = "get_list_game" ->
  run_one rt call env = (Ok (ToolMessage (get_list_game tt) (id call)), env).
Proof.
  intros Hname. unfold run_one, bind, try_except, run_tool.
  rewrite Hname. reflexivity.
Qed.

Lemma tool_node_list_games state front text call env :
  messages state = Some (front ++ [AIMessage text [call]])%list ->
  name call = "get_list_game" ->
  tool_node rt state env
  = (Ok (only_messages [ToolMessage (get_list_game tt) (id call)]), env).
Proof.
  intros Hlog Hname. unfold tool_node.
  rewrite (get_messages_some _ _ Hlog), last_message_snoc.
  cbn [mapM]. unfold bind at 1. unfold bind at 1.
  rewrite (run_one_list_games call env Hname). reflexivity.
Qed.

Lemma graph_invoke_list_games ss log prompt steps env text1 call w1 text2 w2 :
  name call = "get_list_game" ->
  llm_invoke rt (world env) (GAMEBOT_SYSINT :: log ++ [HumanMessage prompt])
  = (Ok (text1, [call]), w1) ->
  llm_invoke rt w1
    (GAMEBOT_SYSINT
     :: log ++ [HumanMessage prompt; AIMessage text1 [call];
                ToolMessage (get_list_game tt) (id call)])
  = (Ok (text2, []), w2) ->
  exists result,
    graph_invoke rt (with_prompt ss log prompt) (S (S (S (S steps)))) env
    = (Ok result,
       mkEnv w2
         (calls env
          ++ [ChatCompletion (GAMEBOT_SYSINT :: log ++ [HumanMessage prompt]);
              ChatCompletion
                (GAMEBOT_SYSINT
                 :: log ++ [HumanMessage prompt; AIMessage text1 [call];
                            ToolMessage (get_list_game tt) (id call)])]))
    /\ messages result
       = Some (log ++ [HumanMessage prompt; AIMessage text1 [call];
                       ToolMessage (get_list_game tt) (id call);
                       AIMessage text2 []])%list.
Proof.
  intros Hname Hcall1 Hcall2. unfold graph_invoke.
  rewrite run_chatbot_step. unfold bind at 1.
  rewrite (chatbot_on_log rt _ _ env (start_messages ss log prompt) (snoc_not_nil _ _)).
  rewrite Hcall1.
  pose proof (messages_after_chatbot _ _ (AIMessage text1 [call])
                (start_messages ss log prompt)) as Hlog1.
  unfold bind at 1. unfold lift.
  rewrite (route_on_last rt _ _ (AIMessage text1 [call]) (get_messages_some _ _ Hlog1)).
  cbn [tool_calls].
  rewrite run_tools_step. unfold bind at 1.
  rewrite (tool_node_list_games _ _ _ _ _ Hlog1 Hname).
  assert (Hlog2 :
            messages
              (apply_writes
                 (apply_writes (apply_writes empty_channels (with_prompt ss log prompt))
                    (defaults ||| apply_writes empty_channels (with_prompt ss log prompt)
                     ||| only_messages [AIMessage text1 [call]]))
                 (only_messages [ToolMessage (get_list_game tt) (id call)]))
            = Some (log ++ [HumanMessage prompt; AIMessage text1 [call];
                            ToolMessage (get_list_game tt) (id call)])%list).
  { rewrite (messages_after_tools _ _ [ToolMessage (get_list_game tt) (id call)] Hlog1).
    rewrite <- !app_assoc. reflexivity. }
  rewrite run_chatbot_step. unfold bind at 1.
  rewrite (chatbot_on_log rt _ _ _ Hlog2); [|destruct log; discriminate].
  cbn [world calls]. rewrite Hcall2.
  pose proof (messages_after_chatbot _ _ (AIMessage text2 []) Hlog2) as Hlog3.
  unfold bind, lift.
  rewrite (route_on_last rt _ _ (AIMessage text2 []) (get_messages_some _ _ Hlog3)).
  cbn [tool_calls]. eexists. split.
  - unfold ret. rewrite <- app_assoc. reflexivity.
  - rewrite Hlog3, <- app_assoc. reflexivity.
Qed.
End ToolRoundTrip.

(** ** Further properties of the nodes and of a turn *)

Section TurnProperties.
Context {W : Type} (rt : Runtime W).

(** X1: the router's error branch is out of reach behind the chatbot node.
    Whenever the node returns, the updated log ends with the model reply
    it produced, and [maybe_route_to_tools] returns a route on it: [tools]
    when the reply carries a request, [END] when it carries none. *)
Theorem router_total_after_chatbot state env update env' :
  chatbot_with_tools rt state env = (Ok update, env') ->
  exists log text requests,
    messages (apply_writes state update) = Some (log ++ [AIMessage text requests])%list
    /\ maybe_route_to_tools rt (apply_writes state update)
       = Ok (match requests with [] => END | _ :: _ => Next tools end).
Proof.
  intros Hrun. apply chatbot_output in Hrun.
  destruct Hrun as (log & text & requests & Hlog & ->).
  pose proof (messages_after_chatbot state log (AIMessage text requests) Hlog) as Hlog'.
  exists log, text, requests. split; [assumption|].
  rewrite (route_on_last rt _ log (AIMessage text requests) (get_messages_some _ _ Hlog')).
  destruct requests; reflexivity.
Qed.

(** X2: after any turn the stored log ends either with the user's message
    (the turn failed and the reply is the error text) or with a model
    reply that carries no tool request, whose content is the reply shown;
    it never ends with a tool result or with a pending request. *)
Theorem turn_ends_on_user_message_or_reply prompt ss log env :
  messages (graph_state ss) = Some log ->
  exists turn env',
    submit rt prompt ss env = (Ok turn, env')
    /\ ((exists e,
            reply turn = "Sorry, I encountered an error: " ++ str e
            /\ messages (graph_state (after turn))
               = Some (log ++ [HumanMessage prompt])%list)
        \/ (exists middle text,
               messages (graph_state (after turn))
               = Some (log ++ HumanMessage prompt :: middle ++ [AIMessage text []])%list
               /\ Forall produced middle
               /\ reply turn = text)).
Proof.
  intros Hlog.
  destruct (submit_frame rt prompt ss log env Hlog)
    as (turn & env' & appended & new & Hsub & _ & Hstored & Happ & _ & _ & _ & _ & Hend).
  exists turn, env'. split; [assumption|].
  destruct Hend as [[-> [e He]]|(front & text & -> & Hreply)].
  - left. exists e. auto.
  - right. exists front, text. split; [assumption|].
    apply Forall_app in Happ. destruct Happ as [Hfront _]. auto.
Qed.

(** X3: whatever the model answers, one chat input costs at most 50
    gateway round-trips. *)
Theorem submit_round_trips_bounded prompt ss log env :
  messages (graph_state ss) = Some log ->
  exists turn env' new,
    submit rt prompt ss env = (Ok turn, env')
    /\ calls env' = (calls env ++ new)%list
    /\ round_trips new <= 50.
Proof.
  intros Hlog.
  destruct (submit_frame rt prompt ss log env Hlog)
    as (turn & env' & appended & new & Hsub & _ & _ & _ & _ & _ & Hcalls & Hle & _).
  exists turn, env', new. auto.
Qed.

(** X4: every chat input reaches the model at least once, and the first
    call of the turn is made on the system instruction, the whole stored
    log and the new user message, in this order. *)
Theorem first_call_carries_stored_log prompt ss log env :
  messages (graph_state ss) = Some log ->
  exists turn env' later,
    submit rt prompt ss env = (Ok turn, env')
    /\ calls env'
       = (calls env
          ++ ChatCompletion (GAMEBOT_SYSINT :: log ++ [HumanMessage prompt]) :: later)%list.
Proof.
  intros Hlog.
  destruct (submit_outcome rt prompt ss log env Hlog)
    as (turn & env' & Hsub & _ & _ & Hraise & Hok).
  destruct (graph_invoke rt (with_prompt ss log prompt) 100 env)
    as [[result|e] env1] eqn:Hrun;
    destruct (graph_invoke_first_call rt ss log prompt 99 env _ _ Hrun) as [later Hcalls].
  - destruct (Hok _ _ eq_refl) as (_ & -> & _). eauto.
  - destruct (Hraise _ _ eq_refl) as (_ & _ & ->). eauto.
Qed.

(** X5: a gateway call that fails is not retried.  When the first call of
    a turn raises, the turn makes that one call and no other, the reply is
    the error text of that exception, and the stored log gains the user's
    message only. *)
Theorem gateway_failure_not_retried prompt ss log env e w :
  messages (graph_state ss) = Some log ->
  llm_invoke rt (world env) (GAMEBOT_SYSINT :: log ++ [HumanMessage prompt]) = (Raise e, w) ->
  exists turn,
    submit rt prompt ss env
    = (Ok turn,
       mkEnv w (calls env
                ++ [ChatCompletion (GAMEBOT_SYSINT :: log ++ [HumanMessage prompt])]))
    /\ reply turn = "Sorry, I encountered an error: " ++ str e
    /\ graph_state (after turn) = with_prompt ss log prompt.
Proof.
  intros Hlog Hcall.
  destruct (submit_outcome rt prompt ss log env Hlog)
    as (turn & env' & Hsub & _ & _ & Hraise & _).
  destruct (Hraise _ _ (graph_invoke_down rt ss log prompt 99 env e w Hcall))
    as (Hreply & Hstate & ->).
  eauto.
Qed.

(** X6: when the model answers the first call without a tool request, the
    turn is one gateway round-trip: the reply is the model's text, and the
    stored log gains the user's message and that answer, nothing else. *)
Theorem plain_answer_one_round_trip prompt ss log env text w :
  messages (graph_state ss) = Some log ->
  llm_invoke rt (world env) (GAMEBOT_SYSINT :: log ++ [HumanMessage prompt])
  = (Ok (text, []), w) ->
  exists turn,
    submit rt prompt ss env
    = (Ok turn,
       mkEnv w (calls env
                ++ [ChatCompletion (GAMEBOT_SYSINT :: log ++ [HumanMessage prompt])]))
    /\ reply turn = text
    /\ messages (graph_state (after turn))
       = Some (log ++ [HumanMessage prompt; AIMessage text []])%list.
Proof.
  intros Hlog Hcall.
  destruct (submit_outcome rt prompt ss log env Hlog)
    as (turn & env' & Hsub & _ & _ & _ & Hok).
  destruct (graph_invoke_answer rt ss log prompt 98 env text w Hcall)
    as (result & Hrun & Hres).
  destruct (Hok _ _ Hrun) as (Hstate & -> & front & last_msg & Hres' & Hreply).
  exists turn. split; [assumption|]. rewrite Hstate. split; [|assumption].
  rewrite Hres in Hres'. injection Hres' as Hres'.
  change [HumanMessage prompt; AIMessage text []]
    with ([HumanMessage prompt] ++ [AIMessage text []])%list in Hres'.
  rewrite app_assoc in Hres'. apply app_inj_tail in Hres'.
  destruct Hres' as [_ <-]. exact Hreply.
Qed.

(** X7: a round trip through [get_list_game].  When the model first asks
    for [get_list_game] and then answers on seeing the catalog, the turn is
    two gateway calls, the second made on the log with the request and the
    catalog as its tool result; the stored log gains, in order, the user's
    message, the request, the tool message carrying the catalog under the
    request's id, and the answer, which is the reply. *)
Theorem list_games_round_trip prompt ss log env text1 call w1 text2 w2 :
  messages (graph_state ss) = Some log ->
  name call = "get_list_game" ->
  llm_invoke rt (world env) (GAMEBOT_SYSINT :: log ++ [HumanMessage prompt])
  = (Ok (text1, [call]), w1) ->
  llm_invoke rt w1
    (GAMEBOT_SYSINT
     :: log ++ [HumanMessage prompt; AIMessage text1 [call];
                ToolMessage (get_list_game tt) (id call)])
  = (Ok (text2, []), w2) ->
  exists turn,
    submit rt prompt ss env
    = (Ok turn,
       mkEnv w2
         (calls env
          ++ [ChatCompletion (GAMEBOT_SYSINT :: log ++ [HumanMessage prompt]);
              ChatCompletion
                (GAMEBOT_SYSINT
                 :: log ++ [HumanMessage prompt; AIMessage text1 [call];
                            ToolMessage (get_list_game tt) (id call)])]))
    /\ reply turn = text2
    /\ messages (graph_state (after turn))
       = Some (log ++ [HumanMessage prompt; AIMessage text1 [call];
                       ToolMessage (get_list_game tt) (id call);
                       AIMessage text2 []])%list.
Proof.
  intros Hlog Hname Hcall1 Hcall2.
  destruct (submit_outcome rt prompt ss log env Hlog)
    as (turn & env' & Hsub & _ & _ & _ & Hok).
  destruct (graph_invoke_list_games rt ss log prompt 96 env text1 call w1 text2 w2
              Hname Hcall1 Hcall2) as (result & Hrun & Hres).
  destruct (Hok _ _ Hrun) as (Hstate & -> & front & last_msg & Hres' & Hreply).
  exists turn. split; [assumption|]. rewrite Hstate. split; [|assumption].
  rewrite Hres in Hres'. injection Hres' as Hres'.
  change [HumanMessage prompt; AIMessage text1 [call];
          ToolMessage (get_list_game tt) (id call); AIMessage text2 []]
    with ([HumanMessage prompt; AIMessage text1 [call];
           ToolMessage (get_list_game tt) (id call)] ++ [AIMessage text2 []])%list
    in Hres'.
  rewrite app_assoc in Hres'. apply app_inj_tail in Hres'.
  destruct Hres' as [_ <-]. exact Hreply.
Qed.
End TurnProperties.

(** ** Properties of a session *)

Section SessionProperties.
Context {W : Type} (rt : Runtime W).

Lemma first_call_facts prompt ss log env :
  messages (graph_state ss) = Some log ->
  exists turn env' later,
    submit rt prompt ss env = (Ok turn, env')
    /\ calls env'
       = (calls env
          ++ ChatCompletion (GAMEBOT_SYSINT :: log ++ [HumanMessage prompt]) :: later)%list.
Proof.
  intros Hlog.
  destruct (submit_outcome rt prompt ss log env Hlog)
    as (turn & env' & Hsub & _ & _ & Hraise & Hok).
  destruct (graph_invoke rt (with_prompt ss log prompt) 100 env)
    as [[result|e] env1] eqn:Hrun;
    destruct (graph_invoke_first_call rt ss log prompt 99 env _ _ Hrun) as [later Hcalls].
  - destruct (Hok _ _ eq_refl) as (_ & -> & _). eauto.
  - destruct (Hraise _ _ eq_refl) as (_ & _ & ->). eauto.
Qed.

(** X8: the displayed history of a session is its transcript.  After any
    sequence of chat inputs, every input has got its reply, and the
    history has gained, for each input in order, the user's entry followed
    by the assistant's entry with the reply given. *)
Theorem session_history_is_transcript prompts ss log env :
  messages (graph_state ss) = Some log ->
  exists replies ss' env',
    chat rt prompts ss env = (Ok (replies, ss'), env')
    /\ List.length replies = List.length prompts
    /\ session_messages ss' = (session_messages ss ++ transcript prompts replies)%list.
Proof.
  intros Hlog.
  destruct (chat_frame rt prompts ss log env Hlog)
    as (replies & ss' & env' & ext & Hchat & Hlen & Hhist & _).
  exists replies, ss', env'. auto.
Qed.

(** X9: the stored log is append-only across a session.  After any
    sequence of chat inputs the log is the former log followed by new
    messages, and the user messages among the new ones are exactly the
    inputs, each once and in order: no input is dropped, duplicated or
    reordered, whether its turn failed or not. *)
Theorem session_log_append_only prompts ss log env :
  messages (graph_state ss) = Some log ->
  exists replies ss' env' ext,
    chat rt prompts ss env = (Ok (replies, ss'), env')
    /\ messages (graph_state ss') = Some (log ++ ext)%list
    /\ filter is_human ext = map HumanMessage prompts.
Proof.
  intros Hlog.
  destruct (chat_frame rt prompts ss log env Hlog)
    as (replies & ss' & env' & ext & Hchat & _ & _ & Hstored & Hhuman & _).
  exists replies, ss', env', ext. auto.
Qed.

(** X10: no sequence of chat inputs changes [order] or [finished]: a
    session that holds them keeps their values, through turns that return
    and turns that fail alike. *)
Theorem session_keeps_order_and_finished prompts ss log o b env :
  messages (graph_state ss) = Some log ->
  order (graph_state ss) = Some o ->
  finished (graph_state ss) = Some b ->
  exists replies ss' env',
    chat rt prompts ss env = (Ok (replies, ss'), env')
    /\ order (graph_state ss') = Some o
    /\ finished (graph_state ss') = Some b.
Proof.
  intros Hlog Ho Hb.
  destruct (chat_frame rt prompts ss log env Hlog)
    as (replies & ss' & env' & ext & Hchat & _ & _ & _ & _ & Horder & Hfinished).
  exists replies, ss', env'. auto.
Qed.

(** X11: the graph returns complete states.  The chatbot node returns
    [order] and [finished] as given, or [[]] and [False] where the state
    lacks them, and so does every invocation of the graph that returns,
    together with a message log, whatever keys the input had. *)
Theorem graph_result_has_all_keys :
  (forall state env update env',
      chatbot_with_tools rt state env = (Ok update, env') ->
      order update = Some (filled_order state)
      /\ finished update = Some (filled_finished state))
  /\ (forall input recursion_limit env result env',
         graph_invoke rt input recursion_limit env = (Ok result, env') ->
         (exists log, messages result = Some log)
         /\ order result = Some (filled_order input)
         /\ finished result = Some (filled_finished input)).
Proof.
  split.
  - intros state env update env' Hrun. apply chatbot_output in Hrun.
    destruct Hrun as (log & text & requests & _ & ->).
    unfold filled_order, filled_finished. cbn.
    destruct (order state), (finished state); auto.
  - intros input recursion_limit env result env' Hrun.
    apply graph_invoke_returns in Hrun.
    destruct Hrun as ((front & text & Hres) & Ho & Hf). eauto.
Qed.

(** X13: without a chat input the script does not call the model.  When
    the chat input is absent or empty, a run of [app] returns with the
    trace of calls as it was, and, unless the clear button was pressed, the
    session as it was (initialised when there was none, or left absent
    when the key is missing). *)
Theorem no_input_no_model_call key session clear_chat chat_input env :
  truthy chat_input = false ->
  exists script env',
    app rt key session clear_chat chat_input env = (Ok script, env')
    /\ calls env' = calls env
    /\ (clear_chat = false ->
        session_state script = session
        \/ (session = None /\ session_state script = Some fresh_session)).
Proof.
  intros Hinput. unfold app. rewrite Hinput.
  destruct (truthy key); cbn [negb].
  2:{ do 2 eexists. split; [reflexivity|]. cbn. auto. }
  destruct (create_llm rt (world env)) as [[[]|e] w].
  - destruct clear_chat.
    + do 2 eexists. split; [reflexivity|]. cbn. split; [reflexivity|discriminate].
    + do 2 eexists. split; [reflexivity|]. cbn. split; [reflexivity|].
      intros _. destruct session; auto.
  - do 2 eexists. split; [reflexivity|]. cbn. split; [reflexivity|].
    intros _. destruct session; auto.
Qed.

(** X14: the clear button forgets the conversation.  With a key and an
    available chat model, a run with the button pressed leaves the fresh
    session whatever the session and the chat input were, calls nothing
    and asks for a rerun; the first gateway call of the next input is then
    made on the system instruction and that input alone. *)
Theorem clear_chat_forgets_conversation key session chat_input env prompt :
  truthy key = true ->
  llm_available rt ->
  truthy (Some prompt) = true ->
  exists env1,
    app rt key session true chat_input env
    = (Ok {| outcome := rerun; session_state := Some fresh_session; page := [] |}, env1)
    /\ calls env1 = calls env
    /\ exists script env2 later,
        app rt key (Some fresh_session) false (Some prompt) env1 = (Ok script, env2)
        /\ calls env2
           = (calls env1
              ++ ChatCompletion [GAMEBOT_SYSINT; HumanMessage prompt] :: later)%list.
Proof.
  intros Hkey Hllm Hprompt. unfold app at 1. rewrite Hkey. cbn [negb].
  destruct (Hllm (world env)) as [w Hcreate]. rewrite Hcreate.
  eexists. split; [reflexivity|]. split; [reflexivity|].
  unfold app. rewrite Hkey, Hprompt. cbn [negb world calls].
  destruct (Hllm w) as [w' Hcreate']. rewrite Hcreate'.
  destruct (first_call_facts prompt fresh_session [] (mkEnv w' (calls env)) eq_refl)
    as (turn & env2 & later & Hsub & Hcalls).
  rewrite Hsub. do 3 eexists. split; [reflexivity|]. exact Hcalls.
Qed.

(** X15: one invocation of [search_game_online] is one call of the search
    completion, made on the prompt built from the game's name, whether the
    call or the reading of its response fails or not; the tool makes no
    chat completion and leaves the world as that one call left it. *)
Theorem search_game_online_one_call game_name env :
  calls (snd (search_game_online rt game_name env))
  = (calls env ++ [SearchCompletion (search_prompt game_name)])%list
  /\ world (snd (search_game_online rt game_name env))
     = snd (generate_content rt (world env) (search_prompt game_name)).
Proof.
  unfold search_game_online, search_prompt, bind, client_generate_content, lift.
  destruct (generate_content rt (world env) _) as [[response|e0] w].
  - destruct response as [[[|c cs]|]]; cbn; auto.
    destruct c as [[[[[|p ps]|]]|]]; cbn; auto.
  - cbn. auto.
Qed.
End SessionProperties.

(** ** The properties above at concrete inputs *)

Lemma router_total_after_chatbot_witness :
  exists log text requests,
    messages
      (apply_writes (mkGameState (Some [HumanMessage "hi"]) None None)
         (defaults ||| mkGameState (Some [HumanMessage "hi"]) None None
          ||| only_messages [AIMessage "Sure." []]))
    = Some (log ++ [AIMessage text requests])%list
    /\ maybe_route_to_tools (answering "Sure.")
         (apply_writes (mkGameState (Some [HumanMessage "hi"]) None None)
            (defaults ||| mkGameState (Some [HumanMessage "hi"]) None None
             ||| only_messages [AIMessage "Sure." []]))
       = Ok (match requests with [] => END | _ :: _ => Next tools end).
Proof.
  apply (router_total_after_chatbot (answering "Sure.")
           (mkGameState (Some [HumanMessage "hi"]) None None) env0
           (defaults ||| mkGameState (Some [HumanMessage "hi"]) None None
            ||| only_messages [AIMessage "Sure." []])
           (mkEnv tt [ChatCompletion [GAMEBOT_SYSINT; HumanMessage "hi"]])).
  reflexivity.
Defined.

Lemma turn_ends_on_user_message_or_reply_witness :
  exists turn env',
    submit (answering "Sure.") "hi" fresh_session env0 = (Ok turn, env')
    /\ ((exists e,
            reply turn = "Sorry, I encountered an error: " ++ str e
            /\ messages (graph_state (after turn)) = Some ([] ++ [HumanMessage "hi"])%list)
        \/ (exists middle text,
               messages (graph_state (after turn))
               = Some ([] ++ HumanMessage "hi" :: middle ++ [AIMessage text []])%list
               /\ Forall produced middle
               /\ reply turn = text)).
Proof.
  apply (turn_ends_on_user_message_or_reply (answering "Sure.") "hi" fresh_session [] env0).
  reflexivity.
Defined.

Lemma submit_round_trips_bounded_witness :
  exists turn env' new,
    submit looping "hi" fresh_session env0 = (Ok turn, env')
    /\ calls env' = (calls env0 ++ new)%list
    /\ round_trips new <= 50.
Proof.
  apply (submit_round_trips_bounded looping "hi" fresh_session [] env0).
  reflexivity.
Defined.

Lemma first_call_carries_stored_log_witness :
  exists turn env' later,
    submit (answering "Sure.") "hi" fresh_session env0 = (Ok turn, env')
    /\ calls env'
       = (calls env0
          ++ ChatCompletion (GAMEBOT_SYSINT :: [] ++ [HumanMessage "hi"]) :: later)%list.
Proof.
  apply (first_call_carries_stored_log (answering "Sure.") "hi" fresh_session [] env0).
  reflexivity.
Defined.

Lemma gateway_failure_not_retried_witness :
  exists turn,
    submit offline "hi" fresh_session env0
    = (Ok turn,
       mkEnv tt (calls env0
                 ++ [ChatCompletion (GAMEBOT_SYSINT :: [] ++ [HumanMessage "hi"])]))
    /\ reply turn = "Sorry, I encountered an error: " ++ str unavailable
    /\ graph_state (after turn) = with_prompt fresh_session [] "hi".
Proof.
  apply (gateway_failure_not_retried offline "hi" fresh_session [] env0 unavailable tt).
  - reflexivity.
  - reflexivity.
Defined.

Lemma plain_answer_one_round_trip_witness :
  exists turn,
    submit (answering "Sure.") "hi" fresh_session env0
    = (Ok turn,
       mkEnv tt (calls env0
                 ++ [ChatCompletion (GAMEBOT_SYSINT :: [] ++ [HumanMessage "hi"])]))
    /\ reply turn = "Sure."
    /\ messages (graph_state (after turn))
       = Some ([] ++ [HumanMessage "hi"; AIMessage "Sure." []])%list.
Proof.
  apply (plain_answer_one_round_trip (answering "Sure.") "hi" fresh_session [] env0
           "Sure." tt).
  - reflexivity.
  - reflexivity.
Defined.

Lemma list_games_round_trip_witness :
  exists turn,
    submit scripted "What games do you have?" fresh_session
      (mkEnv [("", [list_games_call]); ("We have seven games.", [])] [])
    = (Ok turn,
       mkEnv []
         ([]
          ++ [ChatCompletion
                (GAMEBOT_SYSINT :: [] ++ [HumanMessage "What games do you have?"]);
              ChatCompletion
                (GAMEBOT_SYSINT
                 :: [] ++ [HumanMessage "What games do you have?";
                           AIMessage "" [list_games_call];
                           ToolMessage (get_list_game tt) (id list_games_call)])]))
    /\ reply turn = "We have seven games."
    /\ messages (graph_state (after turn))
       = Some ([] ++ [HumanMessage "What games do you have?";
                      AIMessage "" [list_games_call];
                      ToolMessage (get_list_game tt) (id list_games_call);
                      AIMessage "We have seven games." []])%list.
Proof.
  apply (list_games_round_trip scripted "What games do you have?" fresh_session []
           (mkEnv [("", [list_games_call]); ("We have seven games.", [])] [])
           "" list_games_call [("We have seven games.", [])] "We have seven games." []).
  - reflexivity.
  - reflexivity.
  - reflexivity.
  - reflexivity.
Defined.

Lemma session_history_is_transcript_witness :
  exists replies ss' env',
    chat (answering "Sure.") ["a"; "b"] fresh_session env0 = (Ok (replies, ss'), env')
    /\ List.length replies = List.length ["a"; "b"]
    /\ session_messages ss'
       = (session_messages fresh_session ++ transcript ["a"; "b"] replies)%list.
Proof.
  apply (session_history_is_transcript (answering "Sure.") ["a"; "b"] fresh_session [] env0).
  reflexivity.
Defined.

Lemma session_log_append_only_witness :
  exists replies ss' env' ext,
    chat offline ["a"; "b"] fresh_session env0 = (Ok (replies, ss'), env')
    /\ messages (graph_state ss') = Some ([] ++ ext)%list
    /\ filter is_human ext = map HumanMessage ["a"; "b"].
Proof.
  apply (session_log_append_only offline ["a"; "b"] fresh_session [] env0).
  reflexivity.
Defined.

Lemma session_keeps_order_and_finished_witness :
  exists replies ss' env',
    chat (answering "Sure.") ["a"; "b"]
      (mkSession [] (mkGameState (Some []) (Some ["Chess"]) (Some true))) env0
    = (Ok (replies, ss'), env')
    /\ order (graph_state ss') = Some ["Chess"]
    /\ finished (graph_state ss') = Some true.
Proof.
  apply (session_keeps_order_and_finished (answering "Sure.") ["a"; "b"]
           (mkSession [] (mkGameState (Some []) (Some ["Chess"]) (Some true)))
           [] ["Chess"] true env0).
  - reflexivity.
  - reflexivity.
  - reflexivity.
Defined.

Lemma graph_result_has_all_keys_witness :
  (order (defaults ||| mkGameState (Some [HumanMessage "hi"]) None None
          ||| only_messages [AIMessage "Sure." []])
   = Some (filled_order (mkGameState (Some [HumanMessage "hi"]) None None))
   /\ finished (defaults ||| mkGameState (Some [HumanMessage "hi"]) None None
               ||| only_messages [AIMessage "Sure." []])
      = Some (filled_finished (mkGameState (Some [HumanMessage "hi"]) None None)))
  /\ ((exists log,
          messages (mkGameState (Some [HumanMessage "hi"; AIMessage "Sure." []])
                                (Some []) (Some false)) = Some log)
      /\ order (mkGameState (Some [HumanMessage "hi"; AIMessage "Sure." []])
                            (Some []) (Some false))
         = Some (filled_order (mkGameState (Some [HumanMessage "hi"]) None None))
      /\ finished (mkGameState (Some [HumanMessage "hi"; AIMessage "Sure." []])
                               (Some []) (Some false))
         = Some (filled_finished (mkGameState (Some [HumanMessage "hi"]) None None))).
Proof.
  destruct (graph_result_has_all_keys (answering "Sure.")) as [Hnode Hgraph].
  split.
  - apply (Hnode (mkGameState (Some [HumanMessage "hi"]) None None) env0 _
             (mkEnv tt [ChatCompletion [GAMEBOT_SYSINT; HumanMessage "hi"]])).
    reflexivity.
  - apply (Hgraph (mkGameState (Some [HumanMessage "hi"]) None None) 100 env0 _
             (mkEnv tt [ChatCompletion [GAMEBOT_SYSINT; HumanMessage "hi"]])).
    reflexivity.
Defined.

Lemma no_input_no_model_call_witness :
  exists script env',
    app looping (Some "key") (Some fresh_session) false (Some "") env0 = (Ok script, env')
    /\ calls env' = calls env0
    /\ (false = false ->
        session_state script = Some fresh_session
        \/ (Some fresh_session = None /\ session_state script = Some fresh_session)).
Proof.
  apply (no_input_no_model_call looping (Some "key") (Some fresh_session) false
           (Some "") env0).
  reflexivity.
Defined.

Lemma answering_llm_available : llm_available (answering "Sure.").
Proof. intros w. exists w. reflexivity. Defined.

Lemma clear_chat_forgets_conversation_witness :
  exists env1,
    app (answering "Sure.") (Some "key")
      (Some (mkSession [("user", "old")]
               (mkGameState (Some [HumanMessage "old"]) (Some []) (Some false))))
      true (Some "ignored") env0
    = (Ok {| outcome := rerun; session_state := Some fresh_session; page := [] |}, env1)
    /\ calls env1 = calls env0
    /\ exists script env2 later,
        app (answering "Sure.") (Some "key") (Some fresh_session) false (Some "hi") env1
        = (Ok script, env2)
        /\ calls env2
           = (calls env1 ++ ChatCompletion [GAMEBOT_SYSINT; HumanMessage "hi"] :: later)%list.
Proof.
  apply (clear_chat_forgets_conversation (answering "Sure.") (Some "key")
           (Some (mkSession [("user", "old")]
                    (mkGameState (Some [HumanMessage "old"]) (Some []) (Some false))))
           (Some "ignored") env0 "hi").
  - reflexivity.
  - exact answering_llm_available.
  - reflexivity.
Defined.
